(** * The state-management core of the pattern-driven todo application

    A shallow embedding of the JavaScript sources

      - [src/js/todo/classes.js]  ([TodoItem], [TodoList]),
      - [src/js/todo/mixin.js]    ([observerMixin]),
      - [src/js/lib/command.js]   ([Command], [COMMANDS], [CE]),
      - [src/js/lib/storage.js]   ([LocalStorage]),
      - [src/js/app.js]           (the click handlers and the start-up),

    together with the fragment of the JavaScript runtime these files rely on
    (strict equality, truthiness, property reads, [Set], [Array.prototype.some]
    and [find], spread, [JSON.parse], [JSON.stringify], [trim]).

    JavaScript code mutates a shared world and may raise at any point, the
    mutations done before the exception staying in place.  Every operation is
    therefore a function from a world to an outcome (a returned value or a
    thrown exception) paired with the world it leaves behind. *)

From Stdlib Require Import List String Ascii ZArith NArith Bool Arith Lia.
Import ListNotations.
Local Open Scope string_scope.
Local Open Scope list_scope.
Set Warnings "-register-all".

(** ** JavaScript values *)

Module Js.

(** Object identity.  Every object created by [new] or by [JSON.parse] gets a
    fresh location; [===] on objects compares locations. *)
Definition loc := nat.

(** The values the application manipulates.  No code of the application
    assigns to a property of an object once it is built, so an object
    reference is represented by its location together with its contents.
    Strings are byte strings (the UTF-8 form of the JavaScript string).
    A number [VNum m e] stands for [m * 10^e], kept as the exact decimal
    that was written (see [JSON.number_of_digits]). *)
Inductive value : Type :=
| VUndefined
| VNull
| VBool (b : bool)
| VNum (m e : Z)
| VStr (s : string)
| VItem (l : loc) (text : value)                    (* an instance of TodoItem *)
| VRecord (l : loc) (fields : list (string * value)) (* a plain object *)
| VArray (l : loc) (elems : list value).

Inductive exn : Type :=
| TypeError
| SyntaxError
| Raised (cb : nat).     (* whatever the observer callback [cb] threw *)

Inductive result (A : Type) : Type :=
| Ok (a : A)
| Throw (e : exn).
Arguments Ok {A} a.
Arguments Throw {A} e.

Definition rbind {A B} (r : result A) (k : A -> result B) : result B :=
  match r with
  | Ok a => k a
  | Throw e => Throw e
  end.

(** [a === b] *)
Definition strict_eq (a b : value) : bool :=
  match a, b with
  | VUndefined, VUndefined => true
  | VNull, VNull => true
  | VBool x, VBool y => Bool.eqb x y
  | VNum m e, VNum m' e' => (m =? m')%Z && (e =? e')%Z
  | VStr s, VStr t => String.eqb s t
  | VItem l _, VItem l' _ => Nat.eqb l l'
  | VRecord l _, VRecord l' _ => Nat.eqb l l'
  | VArray l _, VArray l' _ => Nat.eqb l l'
  | _, _ => false
  end.

(** ToBoolean, as used by [if (v)] and [!v]. *)
Definition truthy (v : value) : bool :=
  match v with
  | VUndefined | VNull => false
  | VBool b => b
  | VNum m _ => negb (m =? 0)%Z
  | VStr s => negb (String.eqb s "")
  | VItem _ _ | VRecord _ _ | VArray _ _ => true
  end.

(** The last binding of [name] in the own properties of a plain object. *)
Fixpoint lookup_field (name : string) (fields : list (string * value)) : option value :=
  match fields with
  | [] => None
  | (k, v) :: rest =>
      match lookup_field name rest with
      | Some v' => Some v'
      | None => if String.eqb k name then Some v else None
      end
  end.

(** [v.name] for the data properties the application reads ([text],
    [completed], [type], [payload]); none of them is defined on a built-in
    prototype, so on a primitive or an array the read yields [undefined].
    Reading a property of [null] or [undefined] raises a TypeError. *)
Definition get (v : value) (name : string) : result value :=
  match v with
  | VUndefined | VNull => Throw TypeError
  | VItem _ t => Ok (if String.eqb name "text" then t else VUndefined)
  | VRecord _ fields =>
      Ok (match lookup_field name fields with Some x => x | None => VUndefined end)
  | VBool _ | VNum _ _ | VStr _ | VArray _ _ => Ok VUndefined
  end.

(** [arr.some(p)]: stops at the first element on which [p] is true; an
    exception raised by [p] ends the traversal. *)
Fixpoint Array_some (p : value -> result bool) (arr : list value) : result bool :=
  match arr with
  | [] => Ok false
  | x :: rest =>
      match p x with
      | Ok true => Ok true
      | Ok false => Array_some p rest
      | Throw e => Throw e
      end
  end.

(** [arr.find(p)]: the first element on which [p] is true, else [undefined]. *)
Fixpoint Array_find (p : value -> result bool) (arr : list value) : result value :=
  match arr with
  | [] => Ok VUndefined
  | x :: rest =>
      match p x with
      | Ok true => Ok x
      | Ok false => Array_find p rest
      | Throw e => Throw e
      end
  end.

(** A [Set] is the list of its elements in insertion order, which is the
    order in which [forEach] and spread enumerate it.  Membership is
    SameValueZero, which agrees with [===] on the values above. *)
Definition Set_has (s : list value) (v : value) : bool :=
  existsb (strict_eq v) s.

Definition Set_add (s : list value) (v : value) : list value :=
  if Set_has s v then s else s ++ [v].

Definition Set_delete (s : list value) (v : value) : list value :=
  filter (fun x => negb (strict_eq x v)) s.

(** The pieces a string is split into by iteration ([...str]): one per code
    point, that is one per byte that is not a UTF-8 continuation byte. *)
Definition is_continuation (c : ascii) : bool :=
  let n := N_of_ascii c in ((128 <=? n) && (n <? 192))%N.

Fixpoint code_points_aux (cur : option string) (cs : list ascii) : list string :=
  match cs with
  | [] => match cur with Some s => [s] | None => [] end
  | c :: rest =>
      if is_continuation c then
        code_points_aux
          (Some (match cur with Some s => (s ++ String c "")%string | None => String c "" end)) rest
      else
        match cur with
        | Some s => s :: code_points_aux (Some (String c "")) rest
        | None => code_points_aux (Some (String c "")) rest
        end
  end.

Definition code_points (s : string) : list string :=
  code_points_aux None (list_ascii_of_string s).

(** [Array.isArray(v) ? v : [...v]]: arrays are taken as they are, strings
    are iterable, every other value of the model is not and spreading it
    raises a TypeError.  The model has no [Set], [Map] or other iterable
    object among its values: what the code does with such an argument is
    outside the embedding. *)
Definition array_or_spread (v : value) : result (list value) :=
  match v with
  | VArray _ elems => Ok elems
  | VStr s => Ok (map VStr (code_points s))
  | _ => Throw TypeError
  end.

End Js.
Import Js.

(** ** The world the application runs in *)

(** The blob store: the key/value pairs of [window.localStorage]. *)
Definition storage : Type := list (string * string).

(** An observer callback.  [cb_id] is the identity of the function object
    (what the [Set] of observers compares).  The observers of the
    application ([renderTodoList], [LocalStorage.save]) read
    [TodoList.instance.items] and write to the page and to the blob store;
    accordingly a callback does not change the collection or the observer
    set, and [cb_body items store] gives the blob store its body leaves
    behind when the collection holds [items], and whether the body completes
    ([true]) or raises ([false]). *)
Record callback : Type := mkCallback {
  cb_id : nat;
  cb_body : list value -> storage -> storage * bool
}.

(** - [data] is the private field [TodoList.#data] of the one instance;
    - [observers] is the module-level [Set] of [mixin.js];
    - [localStorage] is the content of [window.localStorage];
    - [next_loc] is the next unused object identity;
    - [notifications] and [calls] are ghost state that records what
      happened: how many times [notify] was entered, and the identities of
      the callbacks invoked so far, oldest first. *)
Record World : Type := mkWorld {
  data : list value;
  observers : list callback;
  localStorage : storage;
  next_loc : loc;
  notifications : nat;
  calls : list nat
}.

Definition set_data (d : list value) (w : World) : World :=
  mkWorld d (observers w) (localStorage w) (next_loc w) (notifications w) (calls w).

Definition set_observers (o : list callback) (w : World) : World :=
  mkWorld (data w) o (localStorage w) (next_loc w) (notifications w) (calls w).

Definition set_localStorage (s : storage) (w : World) : World :=
  mkWorld (data w) (observers w) s (next_loc w) (notifications w) (calls w).

Definition set_next_loc (n : loc) (w : World) : World :=
  mkWorld (data w) (observers w) (localStorage w) n (notifications w) (calls w).

Definition count_notification (w : World) : World :=
  mkWorld (data w) (observers w) (localStorage w) (next_loc w) (S (notifications w)) (calls w).

Definition log_call (c : callback) (w : World) : World :=
  mkWorld (data w) (observers w) (localStorage w) (next_loc w) (notifications w)
          (calls w ++ [cb_id c]).

(** [localStorage.getItem(key)]: the value of the first pair under [key],
    [null] ([None]) when there is none. *)
Fixpoint getItem (key : string) (store : storage) : option string :=
  match store with
  | [] => None
  | (k, v) :: rest => if String.eqb k key then Some v else getItem key rest
  end.

(** The world right after [classes.js] is evaluated: the static initialiser
    has built the single [TodoList] with an empty [#data], and the observer
    set of [mixin.js] is empty. *)
Definition initial (store : storage) : World :=
  mkWorld [] [] store 0 0 [].

(** Computations: state passing with exceptions that keep the state. *)
Definition M (A : Type) : Type := World -> result A * World.

Definition ret {A} (a : A) : M A := fun w => (Ok a, w).

Definition throw {A} (e : exn) : M A := fun w => (Throw e, w).

Definition bind {A B} (m : M A) (k : A -> M B) : M B :=
  fun w =>
    match m w with
    | (Ok a, w') => k a w'
    | (Throw e, w') => (Throw e, w')
    end.

Definition lift {A} (r : result A) : M A := fun w => (r, w).

Definition gets {A} (f : World -> A) : M A := fun w => (Ok (f w), w).

Definition modify (f : World -> World) : M unit := fun w => (Ok tt, f w).

Declare Scope js_scope.
Delimit Scope js_scope with js.
Notation "x <- m ;; k" := (bind m (fun x => k))
  (at level 61, m at next level, right associativity) : js_scope.
Notation "m ;; k" := (bind m (fun _ => k))
  (at level 61, right associativity) : js_scope.
Local Open Scope js_scope.

(** [arr.forEach(body)] *)
Fixpoint forEach {A} (body : A -> M unit) (arr : list A) : M unit :=
  match arr with
  | [] => ret tt
  | x :: rest => body x ;; forEach body rest
  end.

(** ** mixin.js *)

Module observerMixin.

Definition has_observer (obs : callback) (s : list callback) : bool :=
  existsb (fun o => Nat.eqb (cb_id o) (cb_id obs)) s.

(** [observers.add(obs)] *)
Definition addObserver (obs : callback) : M unit :=
  modify (fun w =>
    if has_observer obs (observers w) then w
    else set_observers (observers w ++ [obs]) w).

(** [observers.delete(obs)] *)
Definition removeObserver (obs : callback) : M unit :=
  modify (fun w =>
    set_observers
      (filter (fun o => negb (Nat.eqb (cb_id o) (cb_id obs))) (observers w)) w).

(** [obs()] for one observer: the call is logged, then the body runs. *)
Definition invoke (obs : callback) : M unit :=
  modify (log_call obs) ;;
  items <- gets data ;;
  store <- gets localStorage ;;
  modify (set_localStorage (fst (cb_body obs items store))) ;;
  if snd (cb_body obs items store) then ret tt else throw (Raised (cb_id obs)).

(** [observers.forEach((obs) => obs())] *)
Definition notify : M unit :=
  modify count_notification ;;
  obs <- gets observers ;;
  forEach invoke obs.

End observerMixin.

(** ** classes.js *)

Module TodoItem.

(** [new TodoItem(text, completed)]: the constructor has one parameter and
    stores it; a second argument is dropped. *)
Definition new (text completed : value) : M value :=
  l <- gets next_loc ;;
  modify (set_next_loc (S l)) ;;
  ret (VItem l text).

(** [this_.equals(other)], the method call included: calling [equals] on
    [null] or [undefined] raises, and so does calling it on a value that has
    no such method (every value of the model but a TodoItem). *)
Definition equals (this_ other : value) : result bool :=
  match this_ with
  | VItem _ t => rbind (get other "text") (fun t' => Ok (strict_eq t t'))
  | _ => Throw TypeError
  end.

End TodoItem.

Module TodoList.

Import observerMixin.

(** [get items()] *)
Definition items : M (list value) := gets data.

(** [exists(item)] *)
Definition exists_ (item : value) : M bool :=
  d <- gets data ;;
  lift (Array_some (fun todo => TodoItem.equals todo item) d).

(** [findByText(text)] *)
Definition findByText (text : value) : M value :=
  d <- gets data ;;
  lift (Array_find
          (fun item => rbind (get item "text") (fun t => Ok (strict_eq t text))) d).

(** [add(item)] *)
Definition add (item : value) : M bool :=
  found <- exists_ item ;;
  if found then ret false
  else
    modify (fun w => set_data (Set_add (data w) item) w) ;;
    notify ;;
    ret true.

(** [deleteByText(text)] *)
Definition deleteByText (text : value) : M bool :=
  item <- findByText text ;;
  if negb (truthy item) then ret false
  else
    modify (fun w => set_data (Set_delete (data w) item) w) ;;
    notify ;;
    ret true.

(** [replaceList(list)] *)
Definition replaceList (list : value) : M unit :=
  modify (set_data []) ;;
  items <- lift (array_or_spread list) ;;
  forEach (fun item =>
             text <- lift (get item "text") ;;
             completed <- lift (get item "completed") ;;
             todoItem <- TodoItem.new text completed ;;
             modify (fun w => set_data (Set_add (data w) todoItem) w)) items ;;
  notify.

End TodoList.

(** ** command.js *)

Module COMMANDS.
Definition ADD_TODO := "add".
Definition REMOVE_TODO_BY_TEXT := "deleteByText".
Definition UPDATE_TODO := "UPDATE_TODO".
Definition CLEAR_TODO := "CLEAR_TODO".
End COMMANDS.

Module Command.

(** [new Command(type, payload)] *)
Definition new (type payload : value) : M value :=
  l <- gets next_loc ;;
  modify (set_next_loc (S l)) ;;
  ret (VRecord l [("type", type); ("payload", payload)]).

End Command.

Module CE.

(** [execute(command)].  The destructuring [const { type, payload } = command]
    raises a TypeError on [null] and [undefined] and reads the two properties
    otherwise; the [switch] compares with [===]; falling out of it returns
    [undefined]. *)
Definition execute (command : value) : M value :=
  type <- lift (get command "type") ;;
  payload <- lift (get command "payload") ;;
  if strict_eq type (VStr COMMANDS.ADD_TODO) then
    b <- TodoList.add payload ;; ret (VBool b)
  else if strict_eq type (VStr COMMANDS.REMOVE_TODO_BY_TEXT) then
    b <- TodoList.deleteByText payload ;; ret (VBool b)
  else if strict_eq type (VStr COMMANDS.UPDATE_TODO) then ret VUndefined
  else if strict_eq type (VStr COMMANDS.CLEAR_TODO) then ret VUndefined
  else ret VUndefined.

End CE.

(** ** The runtime's [JSON.parse] *)

Module JSON.

Local Open Scope char_scope.

(** Syntax trees of JSON texts (ECMA-404). *)
Inductive json : Type :=
| JNull
| JBool (b : bool)
| JNum (m e : Z)
| JStr (s : string)
| JArr (elems : list json)
| JObj (members : list (string * json)).

Inductive token : Type :=
| TLBracket | TRBracket | TLBrace | TRBrace | TComma | TColon
| TString (s : string)
| TNumber (m e : Z)
| TTrue | TFalse | TNullLit.

Definition is_ws (c : ascii) : bool :=
  let n := N_of_ascii c in
  ((n =? 32) || (n =? 9) || (n =? 10) || (n =? 13))%N.

Definition is_digit (c : ascii) : bool :=
  let n := N_of_ascii c in ((48 <=? n) && (n <=? 57))%N.

Definition digit_val (c : ascii) : Z := Z.of_N (N_of_ascii c) - 48.

Definition hex_val (c : ascii) : option N :=
  let n := N_of_ascii c in
  if ((48 <=? n) && (n <=? 57))%N then Some (n - 48)%N
  else if ((65 <=? n) && (n <=? 70))%N then Some (n - 55)%N
  else if ((97 <=? n) && (n <=? 102))%N then Some (n - 87)%N
  else None.

(** *** String literals *)

(** What a string literal is made of: bytes written as they are (or through
    a one-letter escape), and UTF-16 code units written as [\uXXXX]. *)
Inductive piece : Type :=
| Byte (c : ascii)
| Unit16 (u : N).

Definition quote : ascii := ascii_of_N 34.

Definition simple_escape (c : ascii) : option ascii :=
  if Ascii.eqb c quote then Some quote
  else if Ascii.eqb c "\" then Some "\"
  else if Ascii.eqb c "/" then Some "/"
  else if Ascii.eqb c "b" then Some (ascii_of_N 8)
  else if Ascii.eqb c "f" then Some (ascii_of_N 12)
  else if Ascii.eqb c "n" then Some (ascii_of_N 10)
  else if Ascii.eqb c "r" then Some (ascii_of_N 13)
  else if Ascii.eqb c "t" then Some (ascii_of_N 9)
  else None.

Definition hex4 (a b c d : ascii) : option N :=
  match hex_val a, hex_val b, hex_val c, hex_val d with
  | Some x, Some y, Some z, Some t => Some (x * 4096 + y * 256 + z * 16 + t)%N
  | _, _, _, _ => None
  end.

(** The characters after an opening quote, up to and including the closing
    quote: the pieces read and the number of characters consumed.  [None]
    when the literal is not terminated, holds a control character, or has
    a malformed escape. *)
Fixpoint lex_string (cs : list ascii) : option (list piece * nat) :=
  match cs with
  | [] => None
  | c :: rest =>
      if Ascii.eqb c quote then Some ([], 1)
      else if Ascii.eqb c "\" then
        match rest with
        | [] => None
        | e :: rest1 =>
            if Ascii.eqb e "u" then
              match rest1 with
              | h1 :: h2 :: h3 :: h4 :: rest2 =>
                  match hex4 h1 h2 h3 h4, lex_string rest2 with
                  | Some u, Some (ps, n) => Some (Unit16 u :: ps, 6 + n)
                  | _, _ => None
                  end
              | _ => None
              end
            else
              match simple_escape e, lex_string rest1 with
              | Some b, Some (ps, n) => Some (Byte b :: ps, 2 + n)
              | _, _ => None
              end
        end
      else if (N_of_ascii c <? 32)%N then None
      else
        match lex_string rest with
        | Some (ps, n) => Some (Byte c :: ps, 1 + n)
        | None => None
        end
  end.

Definition utf8 (cp : N) : list ascii :=
  (if cp <? 128 then [ascii_of_N cp]
   else if cp <? 2048 then
     [ascii_of_N (192 + cp / 64); ascii_of_N (128 + cp mod 64)]
   else if cp <? 65536 then
     [ascii_of_N (224 + cp / 4096); ascii_of_N (128 + (cp / 64) mod 64);
      ascii_of_N (128 + cp mod 64)]
   else
     [ascii_of_N (240 + cp / 262144); ascii_of_N (128 + (cp / 4096) mod 64);
      ascii_of_N (128 + (cp / 64) mod 64); ascii_of_N (128 + cp mod 64)])%N.

Definition is_high_surrogate (u : N) : bool := ((55296 <=? u) && (u <? 56320))%N.
Definition is_low_surrogate (u : N) : bool := ((56320 <=? u) && (u <? 57344))%N.

(** The bytes of the string value: a high surrogate followed by a low one is
    one code point, every other code unit is a code point of its own. *)
Fixpoint encode_pieces (ps : list piece) : list ascii :=
  match ps with
  | [] => []
  | Byte c :: rest => c :: encode_pieces rest
  | Unit16 u :: rest =>
      match rest with
      | Unit16 lo :: rest' =>
          if is_high_surrogate u && is_low_surrogate lo then
            utf8 (65536 + (u - 55296) * 1024 + (lo - 56320))%N ++ encode_pieces rest'
          else utf8 u ++ encode_pieces rest
      | _ => utf8 u ++ encode_pieces rest
      end
  end.

(** *** Number literals *)

Fixpoint span_digits (cs : list ascii) : list ascii * list ascii :=
  match cs with
  | c :: rest =>
      if is_digit c then let (ds, r) := span_digits rest in (c :: ds, r)
      else ([], cs)
  | [] => ([], [])
  end.

Definition Z_of_digits (ds : list ascii) : Z :=
  fold_left (fun acc d => 10 * acc + digit_val d)%Z ds 0%Z.

Fixpoint drop_zeros (ds : list ascii) : list ascii :=
  match ds with
  | c :: rest => if Ascii.eqb c "0" then drop_zeros rest else ds
  | [] => []
  end.

(** The decimal [(-1)^neg * digits * 10^exp] in lowest terms: no trailing
    zero in the mantissa, and zero is [(0, 0)] whatever its sign.  The
    rounding of the runtime to binary64 is not modelled. *)
Definition number_of_digits (neg : bool) (ds : list ascii) (exp : Z) : Z * Z :=
  let sig := drop_zeros (rev ds) in
  match sig with
  | [] => (0, 0)%Z
  | _ =>
      let m := Z_of_digits (rev sig) in
      ((if neg then - m else m)%Z,
       (exp + Z.of_nat (List.length ds - List.length sig))%Z)
  end.

(** A number literal at the head of [cs]: its value and its length. *)
Definition lex_number (cs : list ascii) : option (Z * Z * nat) :=
  let '(neg, cs1) :=
    match cs with
    | c :: rest => if Ascii.eqb c "-" then (true, rest) else (false, cs)
    | [] => (false, cs)
    end in
  let '(int_ds, cs2) := span_digits cs1 in
  let int_ok :=
    match int_ds with
    | [] => false
    | d :: more => match more with [] => true | _ => negb (Ascii.eqb d "0") end
    end in
  let '(frac_ok, frac_ds, frac_len, cs3) :=
    match cs2 with
    | c :: rest =>
        if Ascii.eqb c "." then
          let (ds, r) := span_digits rest in
          (negb (Nat.eqb (List.length ds) 0), ds, S (List.length ds), r)
        else (true, [], 0, cs2)
    | [] => (true, [], 0, cs2)
    end in
  let '(exp_ok, exp, exp_len) :=
    match cs3 with
    | c :: rest =>
        if Ascii.eqb c "e" || Ascii.eqb c "E" then
          let '(eneg, sign_len, rest') :=
            match rest with
            | s :: r =>
                if Ascii.eqb s "-" then (true, 1, r)
                else if Ascii.eqb s "+" then (false, 1, r)
                else (false, 0, rest)
            | [] => (false, 0, rest)
            end in
          let (ds, _) := span_digits rest' in
          (negb (Nat.eqb (List.length ds) 0),
           (if eneg then - Z_of_digits ds else Z_of_digits ds)%Z,
           S (sign_len + List.length ds))
        else (true, 0%Z, 0)
    | [] => (true, 0%Z, 0)
    end in
  if int_ok && frac_ok && exp_ok then
    let (m, e) := number_of_digits neg (int_ds ++ frac_ds)
                    (exp - Z.of_nat (List.length frac_ds))%Z in
    Some (m, e, (if neg then 1 else 0) + List.length int_ds + frac_len + exp_len)
  else None.

(** *** Tokens *)

(** The token at the head of [cs] (which does not start with white space)
    and its length, which is never zero. *)
Definition lex_token (cs : list ascii) : option (token * nat) :=
  match cs with
  | [] => None
  | c :: rest =>
      if Ascii.eqb c "[" then Some (TLBracket, 1)
      else if Ascii.eqb c "]" then Some (TRBracket, 1)
      else if Ascii.eqb c "{" then Some (TLBrace, 1)
      else if Ascii.eqb c "}" then Some (TRBrace, 1)
      else if Ascii.eqb c "," then Some (TComma, 1)
      else if Ascii.eqb c ":" then Some (TColon, 1)
      else if Ascii.eqb c quote then
        match lex_string rest with
        | Some (ps, n) => Some (TString (string_of_list_ascii (encode_pieces ps)), S n)
        | None => None
        end
      else if Ascii.eqb c "-" || is_digit c then
        match lex_number cs with
        | Some (m, e, n) => Some (TNumber m e, n)
        | None => None
        end
      else
        match cs with
        | "t" :: "r" :: "u" :: "e" :: _ => Some (TTrue, 4)
        | "f" :: "a" :: "l" :: "s" :: "e" :: _ => Some (TFalse, 5)
        | "n" :: "u" :: "l" :: "l" :: _ => Some (TNullLit, 4)
        | _ => None
        end
  end.

(** The tokens of a text.  [skip] characters at the head belong to the token
    read last and are passed over. *)
Fixpoint lex (skip : nat) (cs : list ascii) : option (list token) :=
  match cs with
  | [] => Some []
  | c :: rest =>
      match skip with
      | S k => lex k rest
      | O =>
          if is_ws c then lex 0 rest
          else
            match lex_token cs with
            | Some (t, n) =>
                match lex (pred n) rest with
                | Some ts => Some (t :: ts)
                | None => None
                end
            | None => None
            end
      end
  end.

(** *** Grammar *)

Inductive parsed (A : Type) : Type :=
| Parsed (a : A)
| Invalid
| OutOfFuel.
Arguments Parsed {A} a.
Arguments Invalid {A}.
Arguments OutOfFuel {A}.

(** Recursive descent over the tokens; each function returns what it read
    and the tokens left.  [parse_elements] reads the elements of an array
    after its opening bracket and up to its closing one, [parse_members]
    does the same for an object. *)
Fixpoint parse_value (fuel : nat) (ts : list token) : parsed (json * list token) :=
  match fuel with
  | O => OutOfFuel
  | S fuel' =>
      match ts with
      | TNullLit :: rest => Parsed (JNull, rest)
      | TTrue :: rest => Parsed (JBool true, rest)
      | TFalse :: rest => Parsed (JBool false, rest)
      | TNumber m e :: rest => Parsed (JNum m e, rest)
      | TString s :: rest => Parsed (JStr s, rest)
      | TLBracket :: TRBracket :: rest => Parsed (JArr [], rest)
      | TLBracket :: rest =>
          match parse_elements fuel' rest with
          | Parsed (elems, rest') => Parsed (JArr elems, rest')
          | Invalid => Invalid
          | OutOfFuel => OutOfFuel
          end
      | TLBrace :: TRBrace :: rest => Parsed (JObj [], rest)
      | TLBrace :: rest =>
          match parse_members fuel' rest with
          | Parsed (members, rest') => Parsed (JObj members, rest')
          | Invalid => Invalid
          | OutOfFuel => OutOfFuel
          end
      | _ => Invalid
      end
  end
with parse_elements (fuel : nat) (ts : list token) : parsed (list json * list token) :=
  match fuel with
  | O => OutOfFuel
  | S fuel' =>
      match parse_value fuel' ts with
      | Parsed (v, TRBracket :: rest) => Parsed ([v], rest)
      | Parsed (v, TComma :: rest) =>
          match parse_elements fuel' rest with
          | Parsed (vs, rest') => Parsed (v :: vs, rest')
          | Invalid => Invalid
          | OutOfFuel => OutOfFuel
          end
      | Parsed _ => Invalid
      | Invalid => Invalid
      | OutOfFuel => OutOfFuel
      end
  end
with parse_members (fuel : nat) (ts : list token)
  : parsed (list (string * json) * list token) :=
  match fuel with
  | O => OutOfFuel
  | S fuel' =>
      match ts with
      | TString k :: TColon :: rest =>
          match parse_value fuel' rest with
          | Parsed (v, TRBrace :: rest') => Parsed ([(k, v)], rest')
          | Parsed (v, TComma :: rest') =>
              match parse_members fuel' rest' with
              | Parsed (ms, rest'') => Parsed ((k, v) :: ms, rest'')
              | Invalid => Invalid
              | OutOfFuel => OutOfFuel
              end
          | Parsed _ => Invalid
          | Invalid => Invalid
          | OutOfFuel => OutOfFuel
          end
      | _ => Invalid
      end
  end.

(** A JSON text is one value, white space around it allowed. *)
Definition parse_tokens (ts : list token) : parsed json :=
  match parse_value (S (2 * List.length ts)) ts with
  | Parsed (j, []) => Parsed j
  | Parsed (_, _ :: _) => Invalid
  | Invalid => Invalid
  | OutOfFuel => OutOfFuel
  end.

Definition parse_text (text : string) : parsed json :=
  match lex 0 (list_ascii_of_string text) with
  | Some ts => parse_tokens ts
  | None => Invalid
  end.

(** The value a syntax tree denotes; every array and object in it is a new
    object and takes the next free location. *)
Fixpoint reify (j : json) (n : loc) : value * loc :=
  match j with
  | JNull => (VNull, n)
  | JBool b => (VBool b, n)
  | JNum m e => (VNum m e, n)
  | JStr s => (VStr s, n)
  | JArr elems =>
      let fix go (js : list json) (k : loc) : list value * loc :=
        match js with
        | [] => ([], k)
        | j' :: rest =>
            let (v, k1) := reify j' k in
            let (vs, k2) := go rest k1 in
            (v :: vs, k2)
        end in
      let (vs, n') := go elems (S n) in
      (VArray n vs, n')
  | JObj members =>
      let fix go (ms : list (string * json)) (k : loc) : list (string * value) * loc :=
        match ms with
        | [] => ([], k)
        | (key, j') :: rest =>
            let (v, k1) := reify j' k in
            let (fs, k2) := go rest k1 in
            ((key, v) :: fs, k2)
        end in
      let (fs, n') := go members (S n) in
      (VRecord n fs, n')
  end.

(** [JSON.parse(text)] for a string [text]: a SyntaxError when [text] is
    not a JSON text, the value it denotes otherwise. *)
Definition parse (text : string) : M value :=
  match parse_text text with
  | Parsed j =>
      n <- gets next_loc ;;
      let (v, n') := reify j n in
      modify (set_next_loc n') ;;
      ret v
  | Invalid => throw SyntaxError
  | OutOfFuel => throw SyntaxError
  end.

End JSON.

(** ** storage.js *)

Module LocalStorage.

(** [save()], which [storage.js] registers as an observer when it is
    evaluated, is one of the callbacks of the world (see [callback]): it
    reads [items] and overwrites the stored text. *)

(** [load()].  [if (data)] fails on [null] and on the empty string. *)
Definition load : M unit :=
  data <- gets (fun w => getItem "todoList" (localStorage w)) ;;
  match data with
  | None => ret tt
  | Some text =>
      if String.eqb text "" then ret tt
      else
        list <- JSON.parse text ;;
        TodoList.replaceList list
  end.

End LocalStorage.

(** ** Vocabulary of the properties *)

Import observerMixin.

(** An entry of the store is an instance of [TodoItem]. *)
Definition is_item (v : value) : bool :=
  match v with
  | VItem _ _ => true
  | _ => false
  end.

Definition text_of (v : value) : value :=
  match v with
  | VItem _ t => t
  | _ => VUndefined
  end.

(** Equality by value of two entries. *)
Definition same_text (a b : value) : bool := strict_eq (text_of a) (text_of b).

(** The collection [d] holds an entry whose text is [t]. *)
Definition holds_text (t : value) (d : list value) : bool :=
  existsb (fun x => strict_eq (text_of x) t) d.

(** At most one entry per text. *)
Fixpoint unique_texts (d : list value) : bool :=
  match d with
  | [] => true
  | x :: rest => negb (existsb (same_text x) rest) && unique_texts rest
  end.

(** No object occurs twice: what a [Set] guarantees of its elements. *)
Fixpoint distinct_objects (d : list value) : bool :=
  match d with
  | [] => true
  | x :: rest => negb (existsb (fun y => strict_eq y x) rest) && distinct_objects rest
  end.

(** Every reference in [d] to the object [e] shows the text of [e]: an
    object has one [text]. *)
Definition coherent_with (e : value) (d : list value) : bool :=
  forallb (fun x => implb (strict_eq e x) (same_text x e)) d.

(** The blob store after the bodies of [obs] ran in turn on the collection
    [d], starting from the blob store [s]. *)
Definition storage_after (obs : list callback) (d : list value) (s : storage) : storage :=
  fold_left (fun s' c => fst (cb_body c d s')) obs s.

(** Every callback of [obs] completes in such a run. *)
Fixpoint observers_return (obs : list callback) (d : list value) (s : storage) : bool :=
  match obs with
  | [] => true
  | c :: rest =>
      snd (cb_body c d s) && observers_return rest d (fst (cb_body c d s))
  end.

(** No function is registered twice: what the [Set] of observers guarantees. *)
Definition distinct_callbacks (obs : list callback) : Prop :=
  NoDup (map cb_id obs).

(** The world after the callbacks [ids] were invoked and left the blob
    store [s]. *)
Definition logged (ids : list nat) (s : storage) (w : World) : World :=
  mkWorld (data w) (observers w) s (next_loc w)
          (notifications w) (calls w ++ ids).

(** The world after a notification pass that invoked the callbacks [ids]
    and left the blob store [s]. *)
Definition notified (ids : list nat) (s : storage) (w : World) : World :=
  mkWorld (data w) (observers w) s (next_loc w)
          (S (notifications w)) (calls w ++ ids).

(** The world after a pass over the observers of [w] in which every
    callback completed. *)
Definition notified_all (w : World) : World :=
  notified (map cb_id (observers w))
           (storage_after (observers w) (data w) (localStorage w)) w.

(** The property read of [command.name] by the destructuring of [execute],
    for a command that is neither [null] nor [undefined]. *)
Definition property (command : value) (name : string) : value :=
  match get command name with
  | Ok v => v
  | Throw _ => VUndefined
  end.

Definition nullish (v : value) : bool :=
  match v with
  | VUndefined | VNull => true
  | _ => false
  end.

(** The plain object [{text: t}]. *)
Definition record (l : loc) (t : string) : value := VRecord l [("text", VStr t)].

(** The entries [replaceList] builds from [elems] when [n] is the next free
    location: one per element, in order. *)
Fixpoint rebuilt (n : loc) (elems : list value) : list value :=
  match elems with
  | [] => []
  | r :: rest => VItem n (property r "text") :: rebuilt (S n) rest
  end.

(** The bound [n] is above the location of every object of [d]. *)
Definition below (n : loc) (d : list value) : bool :=
  forallb (fun x => match x with
                    | VItem l _ | VRecord l _ | VArray l _ => Nat.ltb l n
                    | _ => false
                    end) d.

(** ** Sample values and worlds *)

Definition milk : value := VItem 0 (VStr "Buy milk").
Definition eggs : value := VItem 1 (VStr "Buy eggs").
Definition more_eggs : value := VItem 5 (VStr "Buy eggs").

(** An observer that completes whatever the collection holds and leaves the
    blob store alone. *)
Definition render : callback := mkCallback 7 (fun _ s => (s, true)).

Definition one_entry : World := mkWorld [eggs] [render] [] 2 0 [].

Definition two_entries : World := mkWorld [eggs; milk] [render] [] 2 0 [].

(** A string between double quotes. *)
Definition quoted (s : string) : string :=
  String JSON.quote (s ++ String JSON.quote "").

(** The snapshots [[{"text":"a"},{"text":"a"},{"text":"b"}]] as an array of
    plain objects and [[{"text":"a"},{"text":"a"}]] as a stored text. *)
Definition three_records : value :=
  VArray 2 [record 3 "a"; record 4 "a"; record 5 "b"].

(** A world where [three_records] has been built. *)
Definition before_replace : World := mkWorld [eggs; milk] [render] [] 6 0 [].

Definition duplicate_blob : string :=
  "[{" ++ quoted "text" ++ ":" ++ quoted "a" ++ "},{"
       ++ quoted "text" ++ ":" ++ quoted "a" ++ "}]".

(** An observer whose body raises, and a world where it is registered
    before [render]. *)
Definition failing : callback := mkCallback 3 (fun _ s => (s, false)).
Definition faulty : World := mkWorld [] [failing; render] [] 0 0 [].

(** The same observers over a store of two entries, and a world where
    [failing] is the only observer so far. *)
Definition faulty_two : World := mkWorld [eggs; milk] [failing; render] [] 2 0 [].
Definition failing_first : World := mkWorld [] [failing] [] 0 0 [].

(** The stored snapshot [[{"text":"Buy eggs"}]] and a world that holds it. *)
Definition eggs_blob : string :=
  "[{" ++ quoted "text" ++ ":" ++ quoted "Buy eggs" ++ "}]".

Definition stored_eggs : World :=
  mkWorld [milk] [render] [("todoList", eggs_blob)] 1 0 [].

(** A world whose stored text is cut short. *)
Definition stored_garbage : World :=
  mkWorld [milk] [render] [("todoList", "[{")] 1 0 [].

(** A world whose stored text is the JSON text [null]. *)
Definition stored_null : World :=
  mkWorld [milk] [render] [("todoList", "null")] 1 0 [].

(** The object [new Command(type, payload)] builds. *)
Definition command (l : loc) (type : string) (payload : value) : value :=
  VRecord l [("type", VStr type); ("payload", payload)].

(** The snapshot of [two_entries] and a world whose blob store holds it. *)
Definition eggs_and_milk_blob : string :=
  "[{" ++ quoted "text" ++ ":" ++ quoted "Buy eggs" ++ "},{"
       ++ quoted "text" ++ ":" ++ quoted "Buy milk" ++ "}]".

Definition stored_eggs_and_milk : World :=
  mkWorld [] [render] [("todoList", eggs_and_milk_blob)] 0 0 [].

(** The values of [vs] are pairwise different for [===]. *)
Fixpoint distinct_values (vs : list value) : bool :=
  match vs with
  | [] => true
  | v :: rest => negb (existsb (strict_eq v) rest) && distinct_values rest
  end.

(** From [w] to [w'] the observer set is the same and [notify] has been
    entered at most once. *)
Definition at_most_one_pass (w w' : World) : Prop :=
  observers w' = observers w /\
  (notifications w' = notifications w \/ notifications w' = S (notifications w)).

(** ** The runtime's [JSON.stringify] *)

Module JSON_stringify.

Local Open Scope char_scope.

Definition hex_digit (n : N) : ascii :=
  ascii_of_N (if (n <? 10)%N then 48 + n else 87 + n).

(** [\uXXXX], with lower-case digits. *)
Definition unicode_escape (u : N) : list ascii :=
  ["\"; "u"; hex_digit (u / 4096); hex_digit ((u / 256) mod 16);
   hex_digit ((u / 16) mod 16); hex_digit (u mod 16)]%N.

(** The code unit a three-byte sequence stands for when it is the form of a
    surrogate that has no partner. *)
Definition surrogate_unit (b1 b2 b3 : ascii) : option N :=
  let n1 := N_of_ascii b1 in
  let n2 := N_of_ascii b2 in
  let n3 := N_of_ascii b3 in
  if ((n1 =? 237) && (160 <=? n2) && (n2 <? 192) && (128 <=? n3) && (n3 <? 192))%N
  then Some (53248 + (n2 - 128) * 64 + (n3 - 128))%N
  else None.

(** The characters of a string as they appear between the quotes of its
    JSON form: the two-character escapes, [\u00XX] for the other control
    characters, [\uDXXX] for a lone surrogate, everything else as it is. *)
Fixpoint quote_chars (cs : list ascii) : list ascii :=
  match cs with
  | [] => []
  | c :: rest =>
      let n := N_of_ascii c in
      if (n =? 8)%N then "\" :: "b" :: quote_chars rest
      else if (n =? 9)%N then "\" :: "t" :: quote_chars rest
      else if (n =? 10)%N then "\" :: "n" :: quote_chars rest
      else if (n =? 12)%N then "\" :: "f" :: quote_chars rest
      else if (n =? 13)%N then "\" :: "r" :: quote_chars rest
      else if (n =? 34)%N then "\" :: JSON.quote :: quote_chars rest
      else if (n =? 92)%N then "\" :: "\" :: quote_chars rest
      else if (n <? 32)%N then unicode_escape n ++ quote_chars rest
      else
        match rest with
        | b2 :: b3 :: rest' =>
            match surrogate_unit c b2 b3 with
            | Some u => unicode_escape u ++ quote_chars rest'
            | None => c :: quote_chars rest
            end
        | _ => c :: quote_chars rest
        end
  end.

(** QuoteJSONString *)
Definition quote_json (s : string) : list ascii :=
  JSON.quote :: quote_chars (list_ascii_of_string s) ++ [JSON.quote].

Fixpoint uint_chars (d : Decimal.uint) : list ascii :=
  match d with
  | Decimal.Nil => []
  | Decimal.D0 d' => "0" :: uint_chars d'
  | Decimal.D1 d' => "1" :: uint_chars d'
  | Decimal.D2 d' => "2" :: uint_chars d'
  | Decimal.D3 d' => "3" :: uint_chars d'
  | Decimal.D4 d' => "4" :: uint_chars d'
  | Decimal.D5 d' => "5" :: uint_chars d'
  | Decimal.D6 d' => "6" :: uint_chars d'
  | Decimal.D7 d' => "7" :: uint_chars d'
  | Decimal.D8 d' => "8" :: uint_chars d'
  | Decimal.D9 d' => "9" :: uint_chars d'
  end.

(** The decimal digits of [n]. *)
Definition digits_of (n : N) : list ascii := uint_chars (N.to_uint n).

(** Number::toString for the decimal [m * 10^e]. *)
Definition number_to_string (m e : Z) : list ascii :=
  let all := digits_of (Z.to_N (Z.abs m)) in
  let s := rev (JSON.drop_zeros (rev all)) in
  match s with
  | [] => ["0"]
  | d :: more =>
      let k := Z.of_nat (List.length s) in
      let n := (k + e + Z.of_nat (List.length all - List.length s))%Z in
      (if (m <? 0)%Z then ["-"] else []) ++
      (if ((-5 <=? n) && (n <=? 21))%Z then
         if (k <=? n)%Z then s ++ repeat "0" (Z.to_nat (n - k))
         else if (0 <? n)%Z then
           firstn (Z.to_nat n) s ++ "." :: skipn (Z.to_nat n) s
         else "0" :: "." :: repeat "0" (Z.to_nat (- n)) ++ s
       else
         let exponent :=
           (if (n - 1 <? 0)%Z then "-" else "+")
             :: digits_of (Z.to_N (Z.abs (n - 1))) in
         match more with
         | [] => d :: "e" :: exponent
         | _ => d :: "." :: more ++ "e" :: exponent
         end)
  end.

Fixpoint join (parts : list (list ascii)) : list ascii :=
  match parts with
  | [] => []
  | [p] => p
  | p :: rest => p ++ "," :: join rest
  end.

(** The decimal value of a key that is an array index: a canonical numeral
    below [2^32 - 1]. *)
Definition array_index (k : string) : option N :=
  let cs := list_ascii_of_string k in
  match cs with
  | [] => None
  | d :: more =>
      if forallb JSON.is_digit cs
         && (match more with [] => true | _ => negb (Ascii.eqb d "0") end)
         && (List.length cs <=? 10)%nat
      then
        let n := Z.to_N (JSON.Z_of_digits cs) in
        if (n <? 4294967295)%N then Some n else None
      else None
  end.

(** The keys in the order of their first occurrence. *)
Fixpoint first_keys (seen : list string) (ks : list string) : list string :=
  match ks with
  | [] => []
  | k :: rest =>
      if existsb (String.eqb k) seen then first_keys seen rest
      else k :: first_keys (k :: seen) rest
  end.

Fixpoint insert_index (k : string) (n : N) (sorted : list (string * N))
  : list (string * N) :=
  match sorted with
  | [] => [(k, n)]
  | (k', n') :: rest =>
      if (n <? n')%N then (k, n) :: sorted else (k', n') :: insert_index k n rest
  end.

Fixpoint sort_indices (ks : list string) : list (string * N) :=
  match ks with
  | [] => []
  | k :: rest =>
      match array_index k with
      | Some n => insert_index k n (sort_indices rest)
      | None => sort_indices rest
      end
  end.

(** The own property keys of an object built from the bindings [ks], in
    the order of enumeration: array indices by value, then the other keys
    in the order in which they were first set. *)
Definition own_keys (ks : list string) : list string :=
  let keys := first_keys [] ks in
  map fst (sort_indices keys)
    ++ filter (fun k => match array_index k with Some _ => false | None => true end)
         keys.

(** The last binding of [name]. *)
Fixpoint last_binding {A} (name : string) (fields : list (string * A)) : option A :=
  match fields with
  | [] => None
  | (k, v) :: rest =>
      match last_binding name rest with
      | Some v' => Some v'
      | None => if String.eqb k name then Some v else None
      end
  end.

(** The members of the JSON form of an object whose properties have the
    serialisations [fields] ([None] for a property that has none, which is
    left out). *)
Definition members (fields : list (string * option (list ascii))) : list (list ascii) :=
  flat_map (fun k =>
              match last_binding k fields with
              | Some (Some text) =>
                  [quote_json k ++ ":" :: text]
              | _ => []
              end)
           (own_keys (map fst fields)).

(** SerializeJSONProperty: [None] stands for [undefined]. *)
Fixpoint serialize (v : value) : option (list ascii) :=
  match v with
  | VUndefined => None
  | VNull => Some (list_ascii_of_string "null")
  | VBool b => Some (list_ascii_of_string (if b then "true" else "false"))
  | VNum m e => Some (number_to_string m e)
  | VStr s => Some (quote_json s)
  | VItem _ t =>
      Some ("{" :: join (members [("text"%string, serialize t)]) ++ ["}"])
  | VRecord _ fields =>
      let fix go (fs : list (string * value)) : list (string * option (list ascii)) :=
        match fs with
        | [] => []
        | (k, x) :: rest => (k, serialize x) :: go rest
        end in
      Some ("{" :: join (members (go fields)) ++ ["}"])
  | VArray _ elems =>
      let fix go (xs : list value) : list (list ascii) :=
        match xs with
        | [] => []
        | x :: rest =>
            match serialize x with
            | Some text => text
            | None => list_ascii_of_string "null"
            end :: go rest
        end in
      Some ("[" :: join (go elems) ++ ["]"])
  end.

(** [JSON.stringify(v)], [None] standing for [undefined]. *)
Definition stringify (v : value) : option string :=
  option_map string_of_list_ascii (serialize v).

End JSON_stringify.

(** ** storage.js, continued *)

(** [localStorage.setItem(key, value)] *)
Fixpoint setItem (key value : string) (store : storage) : storage :=
  match store with
  | [] => [(key, value)]
  | (k, v) :: rest =>
      if String.eqb k key then (key, value) :: rest
      else (k, v) :: setItem key value rest
  end.

(** The text [save()] stores: [JSON.stringify(todoList.items)], where
    [items] is a new array of the entries ([setItem] would turn
    [undefined] into a string, which does not happen for an array). *)
Definition snapshot (items : list value) : string :=
  match JSON_stringify.stringify (VArray 0 items) with
  | Some text => text
  | None => "undefined"
  end.

(** [LocalStorage.save], as an observer: [save_id] is the identity of the
    function object.  The blob store is taken to have room for the text. *)
Definition save_id : nat := 0.

Definition save : callback :=
  mkCallback save_id
    (fun items store => (setItem "todoList" (snapshot items) store, true)).

(** The statement [todoList.addObserver(LocalStorage.save)] that runs when
    [storage.js] is evaluated. *)
Definition storage_module : M unit := addObserver save.

(** ** app.js *)

(** The runtime's [String.prototype.trim]: white space and line terminators
    are taken off both ends. *)
Definition bytes (ns : list N) : string :=
  string_of_list_ascii (map ascii_of_N ns).

Definition white_space : list string :=
  map bytes
    [[9]; [10]; [11]; [12]; [13]; [32]; [194; 160]; [225; 154; 128];
     [226; 128; 128]; [226; 128; 129]; [226; 128; 130]; [226; 128; 131];
     [226; 128; 132]; [226; 128; 133]; [226; 128; 134]; [226; 128; 135];
     [226; 128; 136]; [226; 128; 137]; [226; 128; 138]; [226; 128; 168];
     [226; 128; 169]; [226; 128; 175]; [226; 129; 159]; [227; 128; 128];
     [239; 187; 191]]%N.

Definition is_white_space (p : string) : bool :=
  existsb (String.eqb p) white_space.

Fixpoint drop_white_space (ps : list string) : list string :=
  match ps with
  | [] => []
  | p :: rest => if is_white_space p then drop_white_space rest else ps
  end.

Definition trim (s : string) : string :=
  String.concat ""
    (rev (drop_white_space (rev (drop_white_space (code_points s))))).

(** The click handler of the add button.  [value] is what
    [DOM.todoInput.value] holds when the button is clicked; the result is
    what it holds when the handler returns. *)
Definition onAddClick (value : string) : M string :=
  let text := trim value in
  if truthy (VStr text) then
    newItem <- TodoItem.new (VStr text) VUndefined ;;
    command <- Command.new (VStr COMMANDS.ADD_TODO) newItem ;;
    result <- CE.execute command ;;
    ret ""
  else ret value.

(** The click handler of the list.  [is_delete_btn] is
    [event.target.classList.contains("delete-btn")] and [dataset_text] is
    [event.target.dataset.text]. *)
Definition onListClick (is_delete_btn : bool) (dataset_text : value) : M unit :=
  if is_delete_btn then
    command <- Command.new (VStr COMMANDS.REMOVE_TODO_BY_TEXT) dataset_text ;;
    result <- CE.execute command ;;
    ret tt
  else ret tt.

(** ** render.js *)

(** The loop of [renderTodoList]: for every entry it reads [item.text]
    (twice, for the label and for the button) and builds elements of the
    page.  The page is not part of the world; what is left of the loop is
    the property read, which raises a TypeError on [null] and [undefined]
    and gives a value for every other entry. *)
Fixpoint render_items (items : list value) : result unit :=
  match items with
  | [] => Ok tt
  | item :: rest =>
      rbind (get item "text") (fun _ =>
      rbind (get item "text") (fun _ => render_items rest))
  end.

(** [renderTodoList], as an observer: [renderTodoList_id] is the identity
    of the function object.  The page is taken to have the list element
    that the first [DOMContentLoaded] handler caches in [DOM.todoList].
    The body leaves the blob store alone and completes when the loop
    does. *)
Definition renderTodoList_id : nat := 1.

Definition renderTodoList : callback :=
  mkCallback renderTodoList_id
    (fun items store =>
       (store, match render_items items with
               | Ok _ => true
               | Throw _ => false
               end)).

(** The second [DOMContentLoaded] handler. *)
Definition onDOMContentLoaded : M unit :=
  addObserver renderTodoList ;;
  LocalStorage.load.

(** ** Vocabulary for the persistence properties *)

(** No three bytes of [cs] are the form of a surrogate without partner:
    [cs] is the UTF-8 form of a well-formed string. *)
Fixpoint well_formed (cs : list ascii) : bool :=
  match cs with
  | [] => true
  | c :: rest =>
      match rest with
      | b2 :: b3 :: _ =>
          match JSON_stringify.surrogate_unit c b2 b3 with
          | Some _ => false
          | None => true
          end
      | _ => true
      end && well_formed rest
  end.

(** An entry whose text is a well-formed string. *)
Definition string_entry (v : value) : bool :=
  match v with
  | VItem _ (VStr s) => well_formed (list_ascii_of_string s)
  | _ => false
  end.

(** The callback [c] does not write to the blob store. *)
Definition keeps_store (c : callback) : Prop :=
  forall (d : list value) (s : storage), fst (cb_body c d s) = s.

(** The text of a string entry. *)
Definition text_string (v : value) : string :=
  match v with
  | VItem _ (VStr s) => s
  | _ => ""
  end.

(** The tokens and the syntax tree of the snapshot of entries with the
    texts [texts]. *)
Definition entry_tokens (s : string) : list JSON.token :=
  [JSON.TLBrace; JSON.TString "text"; JSON.TColon; JSON.TString s; JSON.TRBrace].

Fixpoint entries_tokens (texts : list string) : list JSON.token :=
  match texts with
  | [] => []
  | s :: rest =>
      match rest with
      | [] => entry_tokens s
      | _ => entry_tokens s ++ JSON.TComma :: entries_tokens rest
      end
  end.

Definition entry_json (s : string) : JSON.json :=
  JSON.JObj [("text", JSON.JStr s)].

(** The characters of [{"text": s}]. *)
Definition entry_chars (s : string) : list ascii :=
  "{"%char :: JSON_stringify.quote_json "text"
    ++ ":"%char :: JSON_stringify.quote_json s ++ ["}"%char].

(** A character of the ASCII white space that [trim] removes. *)
Definition is_blank (c : ascii) : bool :=
  existsb (N.eqb (N_of_ascii c)) [9; 10; 11; 12; 13; 32]%N.

(** ** More sample worlds *)

(** A world where [save] is registered before [render]. *)
Definition saving : World := mkWorld [eggs] [save; render] [] 2 0 [].

(** The application once started on an empty blob store: [save] and
    [renderTodoList] are registered, in this order, and the collection is
    empty. *)
Definition started_empty : World := mkWorld [] [save; renderTodoList] [] 0 0 [].

(** ** Facts about the runtime fragment *)

Lemma strict_eq_refl (v : value) : strict_eq v v = true.
Proof.
  destruct v; simpl; auto using Bool.eqb_reflx, String.eqb_refl, Nat.eqb_refl.
  now rewrite !Z.eqb_refl.
Qed.

Lemma strict_eq_sym (a b : value) : strict_eq a b = strict_eq b a.
Proof.
  destruct a, b; simpl; auto using Nat.eqb_sym, String.eqb_sym.
  - now destruct b, b0.
  - now rewrite (Z.eqb_sym m), (Z.eqb_sym e).
Qed.

Lemma bind_ok {A B} (m : M A) (k : A -> M B) (w w' : World) (a : A) :
  m w = (Ok a, w') -> bind m k w = k a w'.
Proof. unfold bind; now intros ->. Qed.

Lemma bind_throw {A B} (m : M A) (k : A -> M B) (w w' : World) (e : exn) :
  m w = (Throw e, w') -> bind m k w = (Throw e, w').
Proof. unfold bind; now intros ->. Qed.

(** ** The notification pass *)

Lemma invoke_run (c : callback) (w : World) :
  invoke c w
  = (if snd (cb_body c (data w) (localStorage w)) then Ok tt
     else Throw (Raised (cb_id c)),
     set_localStorage (fst (cb_body c (data w) (localStorage w))) (log_call c w)).
Proof.
  unfold invoke, bind, modify, gets; simpl.
  now destruct (snd (cb_body c (data w) (localStorage w))).
Qed.

Lemma logged_nil (w : World) : logged [] (localStorage w) w = w.
Proof. destruct w; unfold logged; simpl; now rewrite app_nil_r. Qed.

Lemma logged_cons (c : callback) (ids : list nat) (s s' : storage) (w : World) :
  logged ids s (set_localStorage s' (log_call c w)) = logged (cb_id c :: ids) s w.
Proof. unfold logged, log_call; simpl; now rewrite <- app_assoc. Qed.

(** When every callback completes, the pass invokes each of them once, in
    registration order. *)
Lemma forEach_invoke_all (obs : list callback) (w : World) :
  observers_return obs (data w) (localStorage w) = true ->
  forEach invoke obs w
  = (Ok tt, logged (map cb_id obs)
              (storage_after obs (data w) (localStorage w)) w).
Proof.
  revert w; induction obs as [|c obs IH]; intros w H.
  - simpl. now rewrite logged_nil.
  - simpl in H; apply andb_prop in H as [Hc Hobs].
    cbn [forEach]. unfold bind at 1. rewrite invoke_run, Hc.
    rewrite IH by exact Hobs. cbn [data localStorage set_localStorage log_call].
    now rewrite logged_cons.
Qed.

(** The pass stops at the first callback that raises. *)
Lemma forEach_invoke_stops (pre post : list callback) (c : callback) (w : World) :
  observers_return pre (data w) (localStorage w) = true ->
  snd (cb_body c (data w) (storage_after pre (data w) (localStorage w))) = false ->
  forEach invoke (pre ++ c :: post) w
  = (Throw (Raised (cb_id c)),
     logged (map cb_id pre ++ [cb_id c])
       (fst (cb_body c (data w) (storage_after pre (data w) (localStorage w)))) w).
Proof.
  revert w; induction pre as [|p pre IH]; intros w Hpre Hc.
  - cbn [app forEach]. unfold bind at 1. rewrite invoke_run.
    cbn [storage_after fold_left] in Hc |- *. rewrite Hc.
    unfold logged, set_localStorage, log_call. reflexivity.
  - simpl in Hpre; apply andb_prop in Hpre as [Hp Hpre].
    cbn [app forEach]. unfold bind at 1. rewrite invoke_run, Hp.
    rewrite IH by assumption. cbn [data localStorage set_localStorage log_call].
    now rewrite logged_cons.
Qed.

Lemma notify_all (w : World) :
  observers_return (observers w) (data w) (localStorage w) = true ->
  notify w = (Ok tt, notified_all w).
Proof.
  intros H. unfold notify, bind, modify, gets; simpl.
  now rewrite forEach_invoke_all.
Qed.

(** Whatever the callbacks do, a pass is counted once and touches neither
    the collection nor the observer set. *)
Lemma forEach_invoke_frame (obs : list callback) (w w' : World) (r : result unit) :
  forEach invoke obs w = (r, w') ->
  data w' = data w /\ observers w' = observers w /\
  next_loc w' = next_loc w /\ notifications w' = notifications w.
Proof.
  revert w; induction obs as [|c obs IH]; intros w.
  - simpl. unfold ret. intros H. injection H as _ <-. auto.
  - cbn [forEach]. unfold bind at 1. rewrite invoke_run.
    destruct (snd (cb_body c (data w) (localStorage w))).
    + intros H. apply IH in H. exact H.
    + intros H. injection H as _ <-. auto.
Qed.

Lemma notify_frame (w : World) :
  let w' := snd (notify w) in
  data w' = data w /\ observers w' = observers w /\
  next_loc w' = next_loc w /\ notifications w' = S (notifications w).
Proof.
  unfold notify, bind, modify, gets. cbn [observers count_notification].
  destruct (forEach invoke (observers w) (count_notification w)) as [r w'] eqn:E.
  apply forEach_invoke_frame in E. exact E.
Qed.

(** What a pass logs is made of identities of registered callbacks. *)
Lemma forEach_invoke_logs (obs : list callback) (w w' : World) (r : result unit) :
  forEach invoke obs w = (r, w') ->
  exists ids, calls w' = calls w ++ ids /\ incl ids (map cb_id obs).
Proof.
  revert w; induction obs as [|c obs IH]; intros w.
  - simpl. unfold ret. intros H. injection H as _ <-.
    exists []. split; [now rewrite app_nil_r|easy].
  - cbn [forEach]. unfold bind at 1. rewrite invoke_run.
    destruct (snd (cb_body c (data w) (localStorage w))).
    + intros H. apply IH in H as (ids & E & Hi). cbn in E.
      exists (cb_id c :: ids). split; [now rewrite E, <- app_assoc|].
      intros x [<-|Hx]; simpl; auto.
    + intros H. injection H as _ <-. cbn.
      exists [cb_id c]. split; auto. intros x [<-|[]]. now left.
Qed.

(** A callback that is not in [obs] is not invoked by a pass over [obs]. *)
Lemma forEach_invoke_skips (obs : list callback) (w : World) (id : nat) :
  ~ In id (map cb_id obs) ->
  count_occ Nat.eq_dec (calls (snd (forEach invoke obs w))) id
  = count_occ Nat.eq_dec (calls w) id.
Proof.
  intros Hn.
  destruct (forEach invoke obs w) as [r w'] eqn:E.
  apply forEach_invoke_logs in E as (ids & E & Hi). cbn [snd].
  rewrite E, count_occ_app.
  rewrite (proj1 (count_occ_not_In Nat.eq_dec ids id)); [lia|].
  intros H. apply Hn. now apply Hi.
Qed.

(** In a pass over [pre ++ c :: post], where [c] occurs once, [c] is
    invoked once when every callback of [pre] completes and not at all
    when one of them raises, whatever [c] and the callbacks of [post] do. *)
Lemma forEach_invoke_count (pre post : list callback) (c : callback) (w : World) :
  ~ In (cb_id c) (map cb_id pre) ->
  ~ In (cb_id c) (map cb_id post) ->
  count_occ Nat.eq_dec (calls (snd (forEach invoke (pre ++ c :: post) w))) (cb_id c)
  = count_occ Nat.eq_dec (calls w) (cb_id c)
    + (if observers_return pre (data w) (localStorage w) then 1 else 0).
Proof.
  revert w. induction pre as [|p pre IH]; intros w Hpre Hpost.
  - cbn [app forEach observers_return]. unfold bind at 1. rewrite invoke_run.
    assert (Hlog : count_occ Nat.eq_dec (calls (log_call c w)) (cb_id c)
                   = count_occ Nat.eq_dec (calls w) (cb_id c) + 1).
    { cbn [log_call calls]. rewrite count_occ_app. cbn [count_occ].
      now destruct (Nat.eq_dec (cb_id c) (cb_id c)). }
    destruct (snd (cb_body c (data w) (localStorage w))).
    + rewrite forEach_invoke_skips by exact Hpost. exact Hlog.
    + exact Hlog.
  - cbn [map] in Hpre.
    assert (Hp : cb_id p <> cb_id c) by (intros E; apply Hpre; now left).
    assert (Hpre' : ~ In (cb_id c) (map cb_id pre))
      by (intros H; apply Hpre; now right).
    assert (Hlog : count_occ Nat.eq_dec (calls (log_call p w)) (cb_id c)
                   = count_occ Nat.eq_dec (calls w) (cb_id c)).
    { cbn [log_call calls]. rewrite count_occ_app. cbn [count_occ].
      destruct (Nat.eq_dec (cb_id p) (cb_id c)); [contradiction|lia]. }
    cbn [app forEach observers_return]. unfold bind at 1. rewrite invoke_run.
    destruct (snd (cb_body p (data w) (localStorage w))).
    + rewrite IH by assumption. cbn [andb]. now rewrite <- Hlog.
    + cbn [andb snd]. change (calls (set_localStorage _ (log_call p w)))
        with (calls (log_call p w)). rewrite Hlog. lia.
Qed.

(** When not every callback completes, there is a first one that raises. *)
Lemma observers_return_false (obs : list callback) (d : list value) (s : storage) :
  observers_return obs d s = false ->
  exists pre c post,
    obs = pre ++ c :: post /\
    observers_return pre d s = true /\
    snd (cb_body c d (storage_after pre d s)) = false.
Proof.
  revert s. induction obs as [|c obs IH]; intros s H; [discriminate|].
  cbn [observers_return] in H.
  destruct (snd (cb_body c d s)) eqn:Hc.
  - cbn [andb] in H. apply IH in H as (pre & c' & post & -> & Hpre & Hc').
    exists (c :: pre), c', post. split; [reflexivity|]. split; [|exact Hc'].
    cbn [observers_return]. now rewrite Hc.
  - exists [], c, obs. now repeat split.
Qed.

(** ... and the pass ends with its exception, having invoked the callbacks
    up to it. *)
Lemma notify_raises (w : World) :
  observers_return (observers w) (data w) (localStorage w) = false ->
  exists pre c post,
    observers w = pre ++ c :: post /\
    observers_return pre (data w) (localStorage w) = true /\
    snd (cb_body c (data w) (storage_after pre (data w) (localStorage w))) = false /\
    notify w
    = (Throw (Raised (cb_id c)),
       notified (map cb_id pre ++ [cb_id c])
         (fst (cb_body c (data w) (storage_after pre (data w) (localStorage w)))) w).
Proof.
  intros H. apply observers_return_false in H as (pre & c & post & E & Hpre & Hc).
  exists pre, c, post. repeat split; auto.
  unfold notify, bind, modify, gets. cbn [observers count_notification].
  rewrite E. now rewrite forEach_invoke_stops.
Qed.


(** ** The store *)

Lemma exists_on_items (e : value) (d : list value) :
  forallb is_item d = true -> is_item e = true ->
  Array_some (fun todo => TodoItem.equals todo e) d = Ok (holds_text (text_of e) d).
Proof.
  intros Hd He. destruct e as [| | | | |le te| |]; try discriminate. simpl.
  induction d as [|x d IH]; simpl; auto.
  simpl in Hd. apply andb_prop in Hd as [Hx Hd].
  destruct x as [| | | | |lx tx| |]; try discriminate. simpl.
  destruct (strict_eq tx te); simpl; auto.
Qed.

Lemma findByText_on_items (t : value) (d : list value) :
  forallb is_item d = true ->
  Array_find (fun item => rbind (get item "text") (fun t' => Ok (strict_eq t' t))) d
  = Ok (match find (fun x => strict_eq (text_of x) t) d with
        | Some x => x
        | None => VUndefined
        end).
Proof.
  intros Hd. induction d as [|x d IH]; simpl; auto.
  simpl in Hd. apply andb_prop in Hd as [Hx Hd].
  destruct x as [| | | | |lx tx| |]; try discriminate. simpl.
  destruct (strict_eq tx t); simpl; auto.
Qed.

Lemma Set_add_fresh (e : value) (d : list value) :
  coherent_with e d = true -> holds_text (text_of e) d = false ->
  Set_add d e = d ++ [e].
Proof.
  intros Hc Hn. unfold Set_add, Set_has.
  replace (existsb (strict_eq e) d) with false; auto.
  symmetry. induction d as [|x d IH]; simpl; auto.
  simpl in Hc, Hn. apply andb_prop in Hc as [Hx Hc].
  apply orb_false_elim in Hn as [Hnx Hn].
  rewrite IH by assumption.
  destruct (strict_eq e x); simpl in *; auto.
  unfold same_text in Hx. congruence.
Qed.

Lemma find_none_holds (t : value) (d : list value) :
  holds_text t d = false -> find (fun x => strict_eq (text_of x) t) d = None.
Proof.
  induction d as [|x d IH]; simpl; auto.
  intros H. apply orb_false_elim in H as [-> H]. auto.
Qed.

Lemma find_first (t x : value) (pre post : list value) :
  holds_text t pre = false -> strict_eq (text_of x) t = true ->
  find (fun y => strict_eq (text_of y) t) (pre ++ x :: post) = Some x.
Proof.
  intros Hpre Hx. induction pre as [|p pre IH]; simpl.
  - now rewrite Hx.
  - simpl in Hpre. apply orb_false_elim in Hpre as [-> Hpre]. auto.
Qed.

Lemma existsb_app_false {A} (f : A -> bool) (l1 l2 : list A) :
  existsb f (l1 ++ l2) = false -> existsb f l1 = false /\ existsb f l2 = false.
Proof. rewrite existsb_app. apply orb_false_elim. Qed.

Lemma Set_delete_absent (x : value) (d : list value) :
  existsb (fun y => strict_eq y x) d = false -> Set_delete d x = d.
Proof.
  unfold Set_delete. induction d as [|y d IH]; simpl; auto.
  intros H. apply orb_false_elim in H as [-> H]. simpl. now rewrite IH.
Qed.

Lemma distinct_objects_split (x : value) (pre post : list value) :
  distinct_objects (pre ++ x :: post) = true ->
  existsb (fun y => strict_eq y x) pre = false /\
  existsb (fun y => strict_eq y x) post = false.
Proof.
  induction pre as [|p pre IH]; simpl; intros H.
  - apply andb_prop in H as [H _]. apply negb_true_iff in H. auto.
  - apply andb_prop in H as [Hp H]. apply negb_true_iff in Hp.
    apply existsb_app_false in Hp as [_ Hp]. simpl in Hp.
    apply orb_false_elim in Hp as [Hp _].
    destruct (IH H) as [H1 H2]. rewrite H1, (strict_eq_sym p x), Hp. auto.
Qed.

Lemma Set_delete_middle (x : value) (pre post : list value) :
  distinct_objects (pre ++ x :: post) = true ->
  Set_delete (pre ++ x :: post) x = pre ++ post.
Proof.
  intros H. apply distinct_objects_split in H as [Hpre Hpost].
  unfold Set_delete. rewrite filter_app. simpl.
  rewrite strict_eq_refl. simpl.
  fold (Set_delete pre x). fold (Set_delete post x).
  now rewrite !Set_delete_absent.
Qed.

Lemma add_present (w : World) (e : value) :
  forallb is_item (data w) = true -> is_item e = true ->
  holds_text (text_of e) (data w) = true ->
  TodoList.add e w = (Ok false, w).
Proof.
  intros Hd He Hp.
  unfold TodoList.add, TodoList.exists_, bind, gets, lift.
  now rewrite exists_on_items, Hp.
Qed.

Lemma add_absent (w : World) (e : value) :
  forallb is_item (data w) = true -> is_item e = true ->
  coherent_with e (data w) = true ->
  holds_text (text_of e) (data w) = false ->
  TodoList.add e w
  = (notify ;; ret true) (set_data (data w ++ [e]) w).
Proof.
  intros Hd He Hc Hn.
  unfold TodoList.add, TodoList.exists_, bind at 1 2, gets, lift.
  rewrite exists_on_items, Hn by assumption.
  unfold bind at 1, modify. now rewrite Set_add_fresh.
Qed.

Lemma notify_then_ret {A} (a : A) (w : World) :
  let w1 := snd ((notify ;; ret a) w) in
  data w1 = data w /\ observers w1 = observers w /\
  notifications w1 = S (notifications w).
Proof.
  pose proof (notify_frame w) as H. simpl in H.
  unfold bind. destruct (notify w) as [[[]|x] w']; simpl in *; tauto.
Qed.

Lemma notify_then_ret_all {A} (a : A) (w : World) :
  observers_return (observers w) (data w) (localStorage w) = true ->
  (notify ;; ret a) w = (Ok a, notified_all w).
Proof. intros H. unfold bind. now rewrite notify_all. Qed.

Lemma holds_text_last (e : value) (d : list value) :
  holds_text (text_of e) (d ++ [e]) = true.
Proof.
  unfold holds_text. rewrite existsb_app. simpl.
  rewrite strict_eq_refl. now rewrite orb_true_r.
Qed.

Lemma forallb_is_item_snoc (e : value) (d : list value) :
  forallb is_item d = true -> is_item e = true -> forallb is_item (d ++ [e]) = true.
Proof. intros Hd He. rewrite forallb_app. simpl. now rewrite Hd, He. Qed.

(** A mutation that ends with a notification pass in which a callback
    raises ends with the exception of the first such callback, the
    callbacks after it not being invoked. *)
Lemma notify_then_ret_raises {A} (a : A) (w : World) :
  observers_return (observers w) (data w) (localStorage w) = false ->
  exists pre c post,
    observers w = pre ++ c :: post /\
    observers_return pre (data w) (localStorage w) = true /\
    snd (cb_body c (data w) (storage_after pre (data w) (localStorage w))) = false /\
    (notify ;; ret a) w
    = (Throw (Raised (cb_id c)),
       notified (map cb_id pre ++ [cb_id c])
         (fst (cb_body c (data w) (storage_after pre (data w) (localStorage w)))) w).
Proof.
  intros H. destruct (notify_raises w H) as (pre & c & post & E & Hpre & Hc & Hn).
  exists pre, c, post. repeat split; auto.
  now rewrite (bind_throw _ _ _ _ _ Hn).
Qed.

(** C4, as the code has it.  On a store of entries, [add(e)] returns
    [false] and leaves the world as it is (no mutation, no notification)
    when an entry with the text of [e] is present.  Otherwise it appends
    [e] and enters [notify] once; it returns [true] when every callback
    completes, and when one raises it ends with the exception of the first
    callback that raises, the insertion staying and the callbacks after
    that one not being invoked.  In either case calling [add(e)] again
    returns [false] and changes nothing: the length of [items] stays and
    the notification count remains one above the initial one. *)
Theorem add_rejects_duplicate_else_inserts (w : World) (e : value) :
  forallb is_item (data w) = true ->
  is_item e = true ->
  coherent_with e (data w) = true ->
  (holds_text (text_of e) (data w) = true ->
     TodoList.add e w = (Ok false, w))
  /\
  (holds_text (text_of e) (data w) = false ->
     let d1 := data w ++ [e] in
     let w1 := snd (TodoList.add e w) in
     data w1 = d1 /\
     notifications w1 = S (notifications w) /\
     (observers_return (observers w) d1 (localStorage w) = true ->
        TodoList.add e w = (Ok true, notified_all (set_data d1 w))) /\
     (observers_return (observers w) d1 (localStorage w) = false ->
        exists pre c post,
          observers w = pre ++ c :: post /\
          observers_return pre d1 (localStorage w) = true /\
          snd (cb_body c d1 (storage_after pre d1 (localStorage w))) = false /\
          TodoList.add e w
          = (Throw (Raised (cb_id c)),
             notified (map cb_id pre ++ [cb_id c])
               (fst (cb_body c d1 (storage_after pre d1 (localStorage w))))
               (set_data d1 w))) /\
     TodoList.add e w1 = (Ok false, w1) /\
     fst (TodoList.items (snd (TodoList.add e w1))) = fst (TodoList.items w1) /\
     notifications (snd (TodoList.add e w1)) = S (notifications w)).
Proof.
  intros Hd He Hc. split.
  - now apply add_present.
  - intros Hn. cbv zeta.
    rewrite (add_absent w e Hd He Hc Hn).
    destruct (notify_then_ret true (set_data (data w ++ [e]) w)) as (D & O & N).
    simpl in D, O, N.
    assert (Hsecond :
      TodoList.add e (snd ((notify;; ret true) (set_data (data w ++ [e]) w)))
      = (Ok false, snd ((notify;; ret true) (set_data (data w ++ [e]) w)))).
    { apply add_present; rewrite ?D; auto using forallb_is_item_snoc, holds_text_last. }
    repeat split; auto.
    + intros Hr. now rewrite notify_then_ret_all by exact Hr.
    + intros Hr. exact (notify_then_ret_raises true (set_data (data w ++ [e]) w) Hr).
    + now rewrite Hsecond.
    + now rewrite Hsecond.
Qed.

Lemma add_rejects_duplicate_else_inserts_witness :
  (forallb is_item (data one_entry) = true /\
   is_item milk = true /\
   coherent_with milk (data one_entry) = true /\
   holds_text (text_of milk) (data one_entry) = false /\
   observers_return (observers one_entry) (data one_entry ++ [milk])
     (localStorage one_entry) = true) /\
  TodoList.add milk one_entry
  = (Ok true, mkWorld [eggs; milk] [render] [] 2 1 [7]) /\
  (is_item more_eggs = true /\
   coherent_with more_eggs (data one_entry) = true /\
   holds_text (text_of more_eggs) (data one_entry) = true) /\
  TodoList.add more_eggs one_entry = (Ok false, one_entry) /\
  (forallb is_item (data faulty) = true /\
   coherent_with milk (data faulty) = true /\
   holds_text (text_of milk) (data faulty) = false /\
   observers_return (observers faulty) (data faulty ++ [milk])
     (localStorage faulty) = false) /\
  data (snd (TodoList.add milk faulty)) = [milk] /\
  TodoList.add milk (snd (TodoList.add milk faulty))
  = (Ok false, snd (TodoList.add milk faulty)).
Proof.
  refine (conj (conj eq_refl (conj eq_refl (conj eq_refl (conj eq_refl eq_refl))))
            (conj _ (conj (conj eq_refl (conj eq_refl eq_refl))
               (conj _ (conj (conj eq_refl (conj eq_refl (conj eq_refl eq_refl)))
                  _))))).
  - apply (proj2 (add_rejects_duplicate_else_inserts
                    one_entry milk eq_refl eq_refl eq_refl) eq_refl).
    reflexivity.
  - exact (proj1 (add_rejects_duplicate_else_inserts
                    one_entry more_eggs eq_refl eq_refl eq_refl) eq_refl).
  - pose proof (proj2 (add_rejects_duplicate_else_inserts
                         faulty milk eq_refl eq_refl eq_refl) eq_refl) as H.
    cbv zeta in H. split; [exact (proj1 H)|].
    exact (proj1 (proj2 (proj2 (proj2 (proj2 H))))).
Defined.

(** C4, as the specification states it, does not hold when an observer
    raises: in [faulty] no entry has the text of [milk], yet [add(milk)]
    does not return [true]; it inserts [milk], enters [notify] and ends
    with the exception of the first observer. *)
Lemma add_ends_with_the_observer_exception :
  (forallb is_item (data faulty) = true /\
   holds_text (text_of milk) (data faulty) = false) /\
  fst (TodoList.add milk faulty) <> Ok true /\
  TodoList.add milk faulty
  = (Throw (Raised 3), mkWorld [milk] [failing; render] [] 0 1 [3]).
Proof.
  split; [split; reflexivity|]. split; [|reflexivity].
  simpl. discriminate.
Qed.

Lemma findByText_run (w : World) (t : value) :
  forallb is_item (data w) = true ->
  TodoList.findByText t w
  = (Ok (match find (fun x => strict_eq (text_of x) t) (data w) with
         | Some x => x
         | None => VUndefined
         end), w).
Proof.
  intros Hd. unfold TodoList.findByText, bind, gets, lift.
  now rewrite findByText_on_items.
Qed.

Lemma deleteByText_absent (w : World) (t : value) :
  forallb is_item (data w) = true ->
  holds_text t (data w) = false ->
  TodoList.deleteByText t w = (Ok false, w).
Proof.
  intros Hd Hn. unfold TodoList.deleteByText.
  rewrite (bind_ok _ _ _ _ _ (findByText_run w t Hd)).
  now rewrite find_none_holds.
Qed.

Lemma deleteByText_found (w : World) (t x : value) (pre post : list value) :
  forallb is_item (data w) = true ->
  distinct_objects (data w) = true ->
  data w = pre ++ x :: post ->
  holds_text t pre = false ->
  strict_eq (text_of x) t = true ->
  TodoList.deleteByText t w = (notify ;; ret true) (set_data (pre ++ post) w).
Proof.
  intros Hd Hs E Hpre Hx.
  assert (Hix : is_item x = true).
  { rewrite E, forallb_app in Hd. simpl in Hd.
    apply andb_prop in Hd as [_ Hd]. now apply andb_prop in Hd as [Hd _]. }
  unfold TodoList.deleteByText.
  rewrite (bind_ok _ _ _ _ _ (findByText_run w t Hd)).
  rewrite E, find_first by assumption.
  destruct x as [| | | | |lx tx| |]; try discriminate.
  change (negb (truthy (VItem lx tx))) with false. cbv iota.
  unfold bind at 1, modify. cbv beta.
  rewrite E in Hs |- *. now rewrite Set_delete_middle.
Qed.

(** C5, as the code has it.  On a store of entries, [deleteByText(t)]
    returns [false] and leaves the world as it is (no notification) when no
    entry has the text [t].  When [x] is the first entry whose text is [t],
    it removes [x] and enters [notify] once; it returns [true] when every
    callback completes, and when one raises it ends with the exception of
    the first callback that raises, the removal staying and the callbacks
    after that one not being invoked. *)
Theorem deleteByText_removes_first_match (w : World) (t : value) :
  forallb is_item (data w) = true ->
  distinct_objects (data w) = true ->
  (holds_text t (data w) = false ->
     TodoList.deleteByText t w = (Ok false, w))
  /\
  (forall (x : value) (pre post : list value),
     data w = pre ++ x :: post ->
     holds_text t pre = false ->
     strict_eq (text_of x) t = true ->
     let d1 := pre ++ post in
     let w1 := snd (TodoList.deleteByText t w) in
     data w1 = d1 /\
     notifications w1 = S (notifications w) /\
     (observers_return (observers w) d1 (localStorage w) = true ->
        TodoList.deleteByText t w = (Ok true, notified_all (set_data d1 w))) /\
     (observers_return (observers w) d1 (localStorage w) = false ->
        exists before c after,
          observers w = before ++ c :: after /\
          observers_return before d1 (localStorage w) = true /\
          snd (cb_body c d1 (storage_after before d1 (localStorage w))) = false /\
          TodoList.deleteByText t w
          = (Throw (Raised (cb_id c)),
             notified (map cb_id before ++ [cb_id c])
               (fst (cb_body c d1 (storage_after before d1 (localStorage w))))
               (set_data d1 w)))).
Proof.
  intros Hd Hs. split.
  - now apply deleteByText_absent.
  - intros x pre post E Hpre Hx. cbv zeta.
    rewrite (deleteByText_found w t x pre post Hd Hs E Hpre Hx).
    destruct (notify_then_ret true (set_data (pre ++ post) w)) as (D & O & N).
    simpl in D, O, N. repeat split; auto.
    + intros Hr. now rewrite notify_then_ret_all by exact Hr.
    + intros Hr. exact (notify_then_ret_raises true (set_data (pre ++ post) w) Hr).
Qed.

Lemma deleteByText_removes_first_match_witness :
  (forallb is_item (data two_entries) = true /\
   distinct_objects (data two_entries) = true /\
   holds_text (VStr "missing") (data two_entries) = false /\
   observers_return (observers two_entries) [milk] (localStorage two_entries)
   = true) /\
  TodoList.deleteByText (VStr "missing") two_entries = (Ok false, two_entries) /\
  TodoList.deleteByText (VStr "Buy eggs") two_entries
  = (Ok true, mkWorld [milk] [render] [] 2 1 [7]) /\
  (forallb is_item (data faulty_two) = true /\
   distinct_objects (data faulty_two) = true /\
   observers_return (observers faulty_two) [milk] (localStorage faulty_two)
   = false) /\
  data (snd (TodoList.deleteByText (VStr "Buy eggs") faulty_two)) = [milk] /\
  notifications (snd (TodoList.deleteByText (VStr "Buy eggs") faulty_two)) = 1.
Proof.
  split; [repeat split; reflexivity|].
  assert (Hitems : forallb is_item (data two_entries) = true) by reflexivity.
  assert (Hset : distinct_objects (data two_entries) = true) by reflexivity.
  split; [|split; [|split; [repeat split; reflexivity|]]].
  - apply (deleteByText_removes_first_match two_entries (VStr "missing") Hitems Hset).
    reflexivity.
  - apply (proj2 (deleteByText_removes_first_match
                    two_entries (VStr "Buy eggs") Hitems Hset) eggs [] [milk]);
      reflexivity.
  - pose proof (proj2 (deleteByText_removes_first_match
                         faulty_two (VStr "Buy eggs") eq_refl eq_refl)
                  eggs [] [milk] eq_refl eq_refl eq_refl) as H.
    cbv zeta in H. split; [exact (proj1 H)|exact (proj1 (proj2 H))].
Defined.

(** C5, as the specification states it, does not hold when an observer
    raises: in [faulty_two] an entry has the text, yet [deleteByText] does
    not return [true]; it removes the entry, enters [notify] and ends with
    the exception of the first observer. *)
Lemma deleteByText_ends_with_the_observer_exception :
  (forallb is_item (data faulty_two) = true /\
   holds_text (VStr "Buy eggs") (data faulty_two) = true) /\
  fst (TodoList.deleteByText (VStr "Buy eggs") faulty_two) <> Ok true /\
  TodoList.deleteByText (VStr "Buy eggs") faulty_two
  = (Throw (Raised 3), mkWorld [milk] [failing; render] [] 2 1 [3]).
Proof.
  split; [split; reflexivity|]. split; [|reflexivity].
  simpl. discriminate.
Qed.

(** ** Replacing the collection *)

Lemma get_non_nullish (v : value) (name : string) :
  nullish v = false -> get v name = Ok (property v name).
Proof. unfold property. destruct v; simpl; intros H; try discriminate; auto. Qed.

Lemma Set_add_above (n : loc) (t : value) (d : list value) :
  below n d = true -> Set_add d (VItem n t) = d ++ [VItem n t].
Proof.
  intros H. unfold Set_add, Set_has.
  replace (existsb (strict_eq (VItem n t)) d) with false; auto.
  symmetry. induction d as [|x d IH]; simpl; auto.
  simpl in H. apply andb_prop in H as [Hx H]. rewrite IH by assumption.
  destruct x; simpl in *; try discriminate; auto.
  apply Nat.ltb_lt in Hx. rewrite orb_false_r. apply Nat.eqb_neq. lia.
Qed.

Lemma below_snoc (n : loc) (t : value) (d : list value) :
  below n d = true -> below (S n) (d ++ [VItem n t]) = true.
Proof.
  intros H. unfold below in *. rewrite forallb_app.
  apply andb_true_intro; split.
  - rewrite forallb_forall in *. intros x Hx. specialize (H x Hx).
    destruct x; auto; apply Nat.ltb_lt in H; apply Nat.ltb_lt; lia.
  - simpl. rewrite andb_true_r. apply Nat.ltb_lt. lia.
Qed.

(** One turn of the loop of [replaceList] on an element that is neither
    [null] nor [undefined] appends a new entry. *)
Lemma replaceList_turn (r : value) (w : World) :
  nullish r = false ->
  below (next_loc w) (data w) = true ->
  (text <- lift (get r "text") ;;
   completed <- lift (get r "completed") ;;
   todoItem <- TodoItem.new text completed ;;
   modify (fun w => set_data (Set_add (data w) todoItem) w)) w
  = (Ok tt, set_data (data w ++ [VItem (next_loc w) (property r "text")])
              (set_next_loc (S (next_loc w)) w)).
Proof.
  intros Hr Hb.
  unfold bind, lift. rewrite !(get_non_nullish r _ Hr).
  unfold TodoItem.new, bind, gets, modify, ret.
  cbn [next_loc set_next_loc data set_data].
  now rewrite Set_add_above.
Qed.

(** The whole loop appends one new entry per element, in order. *)
Lemma replaceList_loop (elems : list value) (w : World) :
  forallb (fun r => negb (nullish r)) elems = true ->
  below (next_loc w) (data w) = true ->
  forEach (fun item =>
             text <- lift (get item "text") ;;
             completed <- lift (get item "completed") ;;
             todoItem <- TodoItem.new text completed ;;
             modify (fun w => set_data (Set_add (data w) todoItem) w)) elems w
  = (Ok tt, set_next_loc (next_loc w + List.length elems)
              (set_data (data w ++ rebuilt (next_loc w) elems) w)).
Proof.
  revert w. induction elems as [|r elems IH]; intros w Hr Hb.
  - simpl. unfold ret. destruct w; unfold set_next_loc, set_data; simpl.
    now rewrite Nat.add_0_r, app_nil_r.
  - simpl in Hr. apply andb_prop in Hr as [Hr Hrs].
    apply negb_true_iff in Hr.
    cbn [forEach].
    rewrite (bind_ok _ _ _ _ _ (replaceList_turn r w Hr Hb)).
    rewrite IH; [|assumption|now apply below_snoc].
    unfold set_next_loc, set_data; cbn.
    rewrite <- app_assoc. cbn. do 3 f_equal. lia.
Qed.

(** [replaceList] on an array without [null] or [undefined] elements drops
    the old entries, builds one new entry per element from its [text]
    alone, and enters [notify] once. *)
Lemma replaceList_array (l : loc) (elems : list value) (w : World) :
  forallb (fun r => negb (nullish r)) elems = true ->
  TodoList.replaceList (VArray l elems) w
  = notify (set_next_loc (next_loc w + List.length elems)
              (set_data (rebuilt (next_loc w) elems) w)).
Proof.
  intros Hr. unfold TodoList.replaceList.
  unfold bind at 1, modify at 1.
  unfold bind at 1, lift at 1. cbn [array_or_spread].
  rewrite (bind_ok _ _ _ _ _ (replaceList_loop elems (set_data [] w) Hr eq_refl)).
  reflexivity.
Qed.

Lemma rebuilt_length (n : loc) (elems : list value) :
  List.length (rebuilt n elems) = List.length elems.
Proof. revert n; induction elems; simpl; auto. Qed.

(** Hence the collection has as many entries afterwards as the array has
    elements, whatever their texts, and [notify] was entered once. *)
Lemma replaceList_one_entry_per_element (l : loc) (elems : list value) (w : World) :
  forallb (fun r => negb (nullish r)) elems = true ->
  let w1 := snd (TodoList.replaceList (VArray l elems) w) in
  data w1 = rebuilt (next_loc w) elems /\
  List.length (data w1) = List.length elems /\
  notifications w1 = S (notifications w).
Proof.
  intros Hr. cbv zeta. rewrite replaceList_array by assumption.
  match goal with
  | |- context [notify ?w0] => destruct (notify_frame w0) as (D & _ & _ & N)
  end.
  rewrite D, N. cbn [data notifications set_next_loc set_data].
  now rewrite rebuilt_length.
Qed.

(** C1.  [replaceList] applied to the records with texts a, a, b drops the
    two old entries and enters [notify] once, the one observer being called
    once, but it leaves three entries: the two records with text a become
    two entries. *)
Theorem replaceList_keeps_both_duplicates :
  TodoList.replaceList three_records before_replace
  = (Ok tt,
     mkWorld [VItem 6 (VStr "a"); VItem 7 (VStr "a"); VItem 8 (VStr "b")]
             [render] [] 9 1 [7])
  /\ List.length (data (snd (TodoList.replaceList three_records before_replace))) = 3
  /\ unique_texts (data (snd (TodoList.replaceList three_records before_replace)))
     = false.
Proof. repeat split. Qed.

(** C2.  Loading the stored snapshot of two records with the same text from
    the initial world yields a store with two entries for one text. *)
Theorem load_breaks_unique_texts :
  LocalStorage.load (initial [("todoList", duplicate_blob)])
  = (Ok tt,
     mkWorld [VItem 3 (VStr "a"); VItem 4 (VStr "a")] []
             [("todoList", duplicate_blob)] 5 1 [])
  /\ unique_texts (data (initial [("todoList", duplicate_blob)])) = true
  /\ unique_texts
       (data (snd (LocalStorage.load (initial [("todoList", duplicate_blob)]))))
     = false.
Proof. repeat split. Qed.

(** ** Uniqueness of texts along [add] and [deleteByText] *)

Lemma unique_texts_snoc (e : value) (d : list value) :
  unique_texts d = true -> holds_text (text_of e) d = false ->
  unique_texts (d ++ [e]) = true.
Proof.
  induction d as [|x d IH]; simpl; auto.
  intros H Hn. apply andb_prop in H as [Hx H].
  apply orb_false_elim in Hn as [Hxe Hn].
  rewrite IH by assumption. rewrite existsb_app. simpl.
  unfold same_text at 2. rewrite Hxe. simpl.
  now rewrite orb_false_r, Hx.
Qed.

Lemma existsb_filter_false {A} (f g : A -> bool) (l : list A) :
  existsb f l = false -> existsb f (filter g l) = false.
Proof.
  induction l as [|a l IH]; simpl; auto.
  intros H. apply orb_false_elim in H as [Ha H].
  destruct (g a); simpl; rewrite ?Ha; auto.
Qed.

Lemma unique_texts_filter (g : value -> bool) (d : list value) :
  unique_texts d = true -> unique_texts (filter g d) = true.
Proof.
  induction d as [|x d IH]; simpl; auto.
  intros H. apply andb_prop in H as [Hx H]. apply negb_true_iff in Hx.
  destruct (g x); simpl; auto.
  now rewrite existsb_filter_false, IH.
Qed.

(** [add] keeps the texts of the collection pairwise different. *)
Lemma add_keeps_unique_texts (w : World) (e : value) :
  forallb is_item (data w) = true -> is_item e = true ->
  coherent_with e (data w) = true ->
  unique_texts (data w) = true ->
  unique_texts (data (snd (TodoList.add e w))) = true.
Proof.
  intros Hd He Hc Hu.
  destruct (holds_text (text_of e) (data w)) eqn:Hp.
  - now rewrite add_present.
  - rewrite add_absent by assumption.
    destruct (notify_then_ret true (set_data (data w ++ [e]) w)) as (D & _).
    rewrite D. simpl. now apply unique_texts_snoc.
Qed.

(** So does [deleteByText]. *)
Lemma deleteByText_keeps_unique_texts (w : World) (t : value) :
  forallb is_item (data w) = true ->
  unique_texts (data w) = true ->
  unique_texts (data (snd (TodoList.deleteByText t w))) = true.
Proof.
  intros Hd Hu. unfold TodoList.deleteByText.
  rewrite (bind_ok _ _ _ _ _ (findByText_run w t Hd)).
  destruct (negb (truthy _)); simpl; auto.
  unfold bind at 1, modify. cbv beta.
  match goal with
  | |- context [set_data ?d w] =>
      destruct (notify_then_ret true (set_data d w)) as (D & _)
  end.
  rewrite D. simpl. now apply unique_texts_filter.
Qed.

(** ** Observers *)

(** C3, as the code has it.  When the callback [c] raises, the callbacks
    registered before it completing, [notify] has invoked those and [c], it
    invokes none of the callbacks registered after [c], and the exception
    leaves [notify]; an [add] that triggered the pass keeps its insertion
    and ends with that exception instead of returning. *)
Theorem notify_stops_at_first_failure
  (w : World) (pre post : list callback) (c : callback) :
  observers w = pre ++ c :: post ->
  (observers_return pre (data w) (localStorage w) = true ->
   snd (cb_body c (data w) (storage_after pre (data w) (localStorage w))) = false ->
   notify w
   = (Throw (Raised (cb_id c)),
      notified (map cb_id pre ++ [cb_id c])
        (fst (cb_body c (data w) (storage_after pre (data w) (localStorage w)))) w))
  /\
  (forall e : value,
     forallb is_item (data w) = true -> is_item e = true ->
     coherent_with e (data w) = true ->
     holds_text (text_of e) (data w) = false ->
     observers_return pre (data w ++ [e]) (localStorage w) = true ->
     snd (cb_body c (data w ++ [e])
            (storage_after pre (data w ++ [e]) (localStorage w))) = false ->
     TodoList.add e w
     = (Throw (Raised (cb_id c)),
        notified (map cb_id pre ++ [cb_id c])
          (fst (cb_body c (data w ++ [e])
                  (storage_after pre (data w ++ [e]) (localStorage w))))
          (set_data (data w ++ [e]) w))).
Proof.
  intros E. split.
  - intros Hpre Hc. unfold notify, bind, modify, gets.
    cbn [observers count_notification].
    rewrite E. now rewrite forEach_invoke_stops.
  - intros e Hd He Hco Hn Hpre Hc.
    rewrite add_absent by assumption.
    unfold bind at 1.
    unfold notify, bind, modify, gets. cbn [observers count_notification set_data].
    rewrite E. now rewrite forEach_invoke_stops.
Qed.

Lemma notify_stops_at_first_failure_witness :
  (observers faulty = [] ++ failing :: [render] /\
   observers_return [] (data faulty) (localStorage faulty) = true /\
   snd (cb_body failing (data faulty)
          (storage_after [] (data faulty) (localStorage faulty))) = false) /\
  notify faulty = (Throw (Raised 3), mkWorld [] [failing; render] [] 0 1 [3]) /\
  TodoList.add milk faulty
  = (Throw (Raised 3), mkWorld [milk] [failing; render] [] 0 1 [3]).
Proof.
  split; [repeat split|].
  split.
  - apply (proj1 (notify_stops_at_first_failure faulty [] [render] failing eq_refl));
      reflexivity.
  - apply (proj2 (notify_stops_at_first_failure faulty [] [render] failing eq_refl) milk);
      reflexivity.
Defined.

(** C3, as the specification states it, does not hold: in [faulty] the
    first observer raises, the second one, although registered, is not
    invoked by [notify], and [add] does not return. *)
Lemma notify_does_not_isolate_failures :
  ~ (forall c : callback,
       In c (observers faulty) ->
       In (cb_id c) (calls (snd (notify faulty))))
  /\ fst (TodoList.add milk faulty) <> Ok true.
Proof.
  split.
  - intros H. specialize (H render (or_intror (or_introl eq_refl))).
    simpl in H. destruct H as [H|[]]. discriminate.
  - simpl. discriminate.
Qed.

(** ** [JSON.parse] never runs out of fuel *)

Section ParserFuel.
Import JSON.

Lemma parse_shorter (fuel : nat) :
  (forall ts v r, parse_value fuel ts = Parsed (v, r) ->
                  List.length r < List.length ts) /\
  (forall ts vs r, parse_elements fuel ts = Parsed (vs, r) ->
                   List.length r < List.length ts) /\
  (forall ts ms r, parse_members fuel ts = Parsed (ms, r) ->
                   List.length r < List.length ts).
Proof.
  induction fuel as [|fuel (IHv & IHe & IHm)].
  - repeat split; intros; discriminate.
  - repeat split.
    + intros ts v r H. cbn [parse_value] in H.
      destruct ts as [|t ts]; [discriminate|].
      destruct t; try discriminate;
        try (injection H as <- <-; simpl; lia).
      * destruct ts as [|t' ts'].
        { destruct (parse_elements fuel []) as [[vs r']| |] eqn:E; try discriminate.
          apply IHe in E. simpl in E. lia. }
        destruct t';
          try (destruct (parse_elements fuel _) as [[vs r']| |] eqn:E;
               try discriminate; injection H as <- <-;
               apply IHe in E; simpl in *; lia).
        injection H as <- <-. simpl. lia.
      * destruct ts as [|t' ts'].
        { destruct (parse_members fuel []) as [[vs r']| |] eqn:E; try discriminate.
          apply IHm in E. simpl in E. lia. }
        destruct t';
          try (destruct (parse_members fuel _) as [[vs r']| |] eqn:E;
               try discriminate; injection H as <- <-;
               apply IHm in E; simpl in *; lia).
        injection H as <- <-. simpl. lia.
    + intros ts vs r H. cbn [parse_elements] in H.
      destruct (parse_value fuel ts) as [[v r1]| |] eqn:E; try discriminate.
      apply IHv in E.
      destruct r1 as [|t r1]; try discriminate.
      destruct t; try discriminate.
      * injection H as <- <-. simpl in E. lia.
      * destruct (parse_elements fuel r1) as [[vs' r']| |] eqn:E'; try discriminate.
        injection H as <- <-. apply IHe in E'. simpl in E. lia.
    + intros ts ms r H. cbn [parse_members] in H.
      destruct ts as [|t ts]; try discriminate.
      destruct t; try discriminate.
      destruct ts as [|t ts]; try discriminate.
      destruct t; try discriminate.
      destruct (parse_value fuel ts) as [[v r1]| |] eqn:E; try discriminate.
      apply IHv in E.
      destruct r1 as [|t r1]; try discriminate.
      destruct t; try discriminate.
      * injection H as <- <-. simpl in *. lia.
      * destruct (parse_members fuel r1) as [[ms' r']| |] eqn:E'; try discriminate.
        injection H as <- <-. apply IHm in E'. simpl in *. lia.
Qed.

Lemma parse_enough_fuel (fuel : nat) :
  (forall ts, 2 * List.length ts < fuel -> parse_value fuel ts <> OutOfFuel) /\
  (forall ts, 2 * List.length ts + 1 < fuel -> parse_elements fuel ts <> OutOfFuel) /\
  (forall ts, 2 * List.length ts + 1 < fuel -> parse_members fuel ts <> OutOfFuel).
Proof.
  induction fuel as [|fuel (IHv & IHe & IHm)].
  - repeat split; intros; lia.
  - repeat split.
    + intros ts Hf. cbn [parse_value].
      destruct ts as [|t ts]; [discriminate|].
      destruct t; try discriminate.
      * destruct ts as [|t' ts'].
        { specialize (IHe []). simpl in *.
          destruct (parse_elements fuel []) as [[vs r']| |]; try discriminate.
          intros _. apply IHe; auto. lia. }
        assert (He : parse_elements fuel (t' :: ts') <> OutOfFuel)
          by (apply IHe; simpl in *; lia).
        destruct t';
          try (destruct (parse_elements fuel _) as [[vs r']| |];
               try discriminate; congruence).
      * destruct ts as [|t' ts'].
        { specialize (IHm []). simpl in *.
          destruct (parse_members fuel []) as [[vs r']| |]; try discriminate.
          intros _. apply IHm; auto. lia. }
        assert (He : parse_members fuel (t' :: ts') <> OutOfFuel)
          by (apply IHm; simpl in *; lia).
        destruct t';
          try (destruct (parse_members fuel _) as [[vs r']| |];
               try discriminate; congruence).
    + intros ts Hf. cbn [parse_elements].
      assert (Hv : parse_value fuel ts <> OutOfFuel) by (apply IHv; lia).
      destruct (parse_value fuel ts) as [[v r1]| |] eqn:E; try discriminate;
        try congruence.
      apply (proj1 (parse_shorter fuel)) in E.
      destruct r1 as [|t r1]; try discriminate.
      destruct t; try discriminate.
      assert (He : parse_elements fuel r1 <> OutOfFuel)
        by (apply IHe; simpl in *; lia).
      destruct (parse_elements fuel r1) as [[vs' r']| |]; try discriminate.
      congruence.
    + intros ts Hf. cbn [parse_members].
      destruct ts as [|t ts]; try discriminate.
      destruct t; try discriminate.
      destruct ts as [|t ts]; try discriminate.
      destruct t; try discriminate.
      assert (Hv : parse_value fuel ts <> OutOfFuel) by (apply IHv; simpl in *; lia).
      destruct (parse_value fuel ts) as [[v r1]| |] eqn:E; try discriminate;
        try congruence.
      apply (proj1 (parse_shorter fuel)) in E.
      destruct r1 as [|t r1]; try discriminate.
      destruct t; try discriminate.
      assert (He : parse_members fuel r1 <> OutOfFuel)
        by (apply IHm; simpl in *; lia).
      destruct (parse_members fuel r1) as [[ms' r']| |]; try discriminate.
      congruence.
Qed.

(** The fuel [parse_tokens] gives is enough: a text is rejected because it
    is not JSON, never because the recursion was cut short. *)
Lemma parse_text_decides (text : string) : parse_text text <> OutOfFuel.
Proof.
  unfold parse_text. destruct (lex 0 (list_ascii_of_string text)) as [ts|];
    [|discriminate].
  unfold parse_tokens.
  pose proof (proj1 (parse_enough_fuel (S (2 * List.length ts))) ts) as H.
  destruct (parse_value (S (2 * List.length ts)) ts) as [[j [|t r]]| |];
    try discriminate.
  intros _. apply H; [lia|reflexivity].
Qed.

End ParserFuel.

Lemma addObserver_run (c : callback) (w : World) :
  addObserver c w
  = (Ok tt, if has_observer c (observers w) then w
            else set_observers (observers w ++ [c]) w).
Proof. reflexivity. Qed.

Lemma has_observer_in (c : callback) (obs : list callback) :
  has_observer c obs = true <-> In (cb_id c) (map cb_id obs).
Proof.
  unfold has_observer. rewrite existsb_exists, in_map_iff. split.
  - intros (o & Ho & E). apply Nat.eqb_eq in E. eauto.
  - intros (o & E & Ho). exists o. split; auto. now apply Nat.eqb_eq.
Qed.

(** Registration keeps the observers pairwise different and leaves [c]
    registered. *)
Lemma addObserver_set (c : callback) (w : World) :
  distinct_callbacks (observers w) ->
  let w1 := snd (addObserver c w) in
  distinct_callbacks (observers w1) /\ has_observer c (observers w1) = true.
Proof.
  intros Hd. rewrite addObserver_run. cbn [snd].
  destruct (has_observer c (observers w)) eqn:Hh; [auto|].
  cbn [observers set_observers]. split.
  - unfold distinct_callbacks in *. rewrite map_app. simpl.
    apply NoDup_app; auto.
    + repeat constructor. intros [].
    + intros x Hx [<-|[]].
      apply has_observer_in in Hx. congruence.
  - apply has_observer_in. rewrite map_app, in_app_iff. right. now left.
Qed.

(** Where the registered callback with the identity of [c] stands in the
    observer set after [addObserver(c)]: last when [c] was not registered. *)
Lemma addObserver_position (c : callback) (w : World) :
  exists pre c' post,
    observers (snd (addObserver c w)) = pre ++ c' :: post /\
    cb_id c' = cb_id c /\
    (has_observer c (observers w) = false ->
       pre = observers w /\ c' = c /\ post = []).
Proof.
  rewrite addObserver_run. cbn [snd].
  destruct (has_observer c (observers w)) eqn:Hh.
  - apply has_observer_in, in_map_iff in Hh as (c' & E & Hin).
    apply in_split in Hin as (pre & post & Hs).
    exists pre, c', post. repeat split; auto; discriminate.
  - exists (observers w), c, []. now repeat split.
Qed.

(** C9, as the code has it.  Registering the callback [c] a second time
    changes nothing: [c] is in the observer set once.  A notification pass
    then invokes [c] at most once: once when every callback registered
    before [c] completes, and not at all when one of them raises.  When
    every callback completes the pass returns, each body having run once,
    in registration order. *)
Theorem addObserver_twice_notifies_at_most_once (w : World) (c : callback) :
  distinct_callbacks (observers w) ->
  let w1 := snd (addObserver c w) in
  let w2 := snd (addObserver c w1) in
  addObserver c w1 = (Ok tt, w1) /\
  count_occ Nat.eq_dec (map cb_id (observers w2)) (cb_id c) = 1 /\
  (observers_return (observers w2) (data w2) (localStorage w2) = true ->
     notify w2 = (Ok tt, notified_all w2)) /\
  exists pre c' post,
    observers w2 = pre ++ c' :: post /\
    cb_id c' = cb_id c /\
    (has_observer c (observers w) = false ->
       pre = observers w /\ c' = c /\ post = []) /\
    count_occ Nat.eq_dec (calls (snd (notify w2))) (cb_id c)
    = count_occ Nat.eq_dec (calls w2) (cb_id c)
      + (if observers_return pre (data w2) (localStorage w2) then 1 else 0).
Proof.
  intros Hd. cbv zeta.
  destruct (addObserver_set c w Hd) as [Hd1 Hh1]. cbv zeta in Hd1, Hh1.
  assert (E : addObserver c (snd (addObserver c w)) = (Ok tt, snd (addObserver c w))).
  { rewrite (addObserver_run c (snd (addObserver c w))). now rewrite Hh1. }
  rewrite E. cbn [snd].
  assert (Hone : count_occ Nat.eq_dec
                   (map cb_id (observers (snd (addObserver c w)))) (cb_id c) = 1).
  { apply NoDup_count_occ'; auto. now apply has_observer_in. }
  split; [reflexivity|]. split; [exact Hone|]. split; [apply notify_all|].
  destruct (addObserver_position c w) as (pre & c' & post & Hs & Hid & Hfresh).
  exists pre, c', post. repeat split; try tauto.
  unfold distinct_callbacks in Hd1. rewrite Hs, map_app in Hd1. cbn [map] in Hd1.
  assert (Hpre : ~ In (cb_id c') (map cb_id pre)).
  { intros H. apply NoDup_remove_2 in Hd1. apply Hd1, in_or_app. now left. }
  assert (Hpost : ~ In (cb_id c') (map cb_id post)).
  { intros H. apply NoDup_remove_2 in Hd1. apply Hd1, in_or_app. now right. }
  unfold notify, bind, modify, gets. cbn [observers count_notification].
  rewrite Hs, <- Hid. now rewrite forEach_invoke_count.
Qed.

Lemma addObserver_twice_notifies_at_most_once_witness :
  distinct_callbacks (observers (initial [])) /\
  notify (snd (addObserver render (snd (addObserver render (initial [])))))
  = (Ok tt, mkWorld [] [render] [] 0 1 [7]) /\
  distinct_callbacks (observers failing_first) /\
  count_occ Nat.eq_dec
    (map cb_id
       (observers (snd (addObserver render (snd (addObserver render failing_first))))))
    (cb_id render)
  = 1.
Proof.
  assert (Hd : distinct_callbacks (observers (initial []))) by constructor.
  assert (Hf : distinct_callbacks (observers failing_first))
    by (repeat constructor; intros []).
  split; [exact Hd|]. split; [|split; [exact Hf|]].
  - exact (proj1 (proj2 (proj2
             (addObserver_twice_notifies_at_most_once (initial []) render Hd)))
             eq_refl).
  - exact (proj1 (proj2
             (addObserver_twice_notifies_at_most_once failing_first render Hf))).
Defined.

(** C9, as the specification states it, does not hold when a callback
    registered earlier raises: [render], registered twice after [failing],
    is in the observer set once, and the notification pass that follows
    does not invoke it. *)
Lemma registered_twice_not_invoked :
  map cb_id
    (observers (snd (addObserver render (snd (addObserver render failing_first)))))
  = [3; 7] /\
  calls (snd (notify (snd (addObserver render
                             (snd (addObserver render failing_first))))))
  = [3] /\
  count_occ Nat.eq_dec
    (calls (snd (notify (snd (addObserver render
                                (snd (addObserver render failing_first)))))))
    (cb_id render)
  <> 1.
Proof.
  split; [reflexivity|]. split; [reflexivity|].
  simpl. discriminate.
Qed.

(** ** The command executor *)

Lemma strict_eq_VStr (v : value) (s : string) :
  strict_eq v (VStr s) = true <-> v = VStr s.
Proof.
  destruct v; simpl; split; try discriminate.
  - intros H. apply String.eqb_eq in H. now subst.
  - intros H. injection H as ->. apply String.eqb_refl.
Qed.

Lemma strict_eq_VStr_false (v : value) (s : string) :
  v <> VStr s -> strict_eq v (VStr s) = false.
Proof.
  intros H. destruct (strict_eq v (VStr s)) eqn:E; auto.
  apply strict_eq_VStr in E. contradiction.
Qed.

(** C6.  For a command that is an object (or any value but [null] and
    [undefined]), [execute] yields what [add] yields on the payload when the
    type is [ADD_TODO], what [deleteByText] yields when it is
    [REMOVE_TODO_BY_TEXT], the boolean wrapped as it is and the exception
    passed on; for every other type, [UPDATE_TODO] and [CLEAR_TODO]
    included, it returns [undefined] and leaves the world as it is. *)
Theorem execute_routes_by_type (cmd : value) (w : World) :
  nullish cmd = false ->
  (property cmd "type" = VStr COMMANDS.ADD_TODO ->
     CE.execute cmd w
     = (b <- TodoList.add (property cmd "payload") ;; ret (VBool b)) w)
  /\
  (property cmd "type" = VStr COMMANDS.REMOVE_TODO_BY_TEXT ->
     CE.execute cmd w
     = (b <- TodoList.deleteByText (property cmd "payload") ;; ret (VBool b)) w)
  /\
  (property cmd "type" <> VStr COMMANDS.ADD_TODO ->
   property cmd "type" <> VStr COMMANDS.REMOVE_TODO_BY_TEXT ->
     CE.execute cmd w = (Ok VUndefined, w)).
Proof.
  intros Hn.
  assert (E : forall k : value -> value -> M value,
             (type <- lift (get cmd "type") ;;
              payload <- lift (get cmd "payload") ;; k type payload) w
             = k (property cmd "type") (property cmd "payload") w).
  { intros k. unfold bind, lift. now rewrite !(get_non_nullish cmd _ Hn). }
  unfold CE.execute.
  rewrite (E (fun type payload =>
    if strict_eq type (VStr COMMANDS.ADD_TODO) then _ else _)).
  repeat split.
  - intros ->. reflexivity.
  - intros ->. reflexivity.
  - intros H1 H2.
    rewrite (strict_eq_VStr_false _ _ H1), (strict_eq_VStr_false _ _ H2).
    repeat match goal with
           | |- context [strict_eq ?a ?b] => destruct (strict_eq a b)
           end; reflexivity.
Qed.

Lemma execute_routes_by_type_witness :
  nullish (command 5 "add" milk) = false /\
  CE.execute (command 5 "add" milk) one_entry
  = (Ok (VBool true), mkWorld [eggs; milk] [render] [] 2 1 [7])
  /\ CE.execute (command 5 "deleteByText" (VStr "missing")) one_entry
     = (Ok (VBool false), one_entry)
  /\ CE.execute (command 5 "UPDATE_TODO" VUndefined) one_entry = (Ok VUndefined, one_entry)
  /\ CE.execute (command 5 "CLEAR_TODO" VUndefined) one_entry = (Ok VUndefined, one_entry)
  /\ CE.execute (command 5 "bogus" milk) one_entry = (Ok VUndefined, one_entry).
Proof.
  pose proof (fun t p => execute_routes_by_type (command 5 t p) one_entry eq_refl) as H.
  split; [reflexivity|].
  refine (conj _ (conj _ (conj _ (conj _ _)))).
  - rewrite (proj1 (H "add" milk) eq_refl). reflexivity.
  - rewrite (proj1 (proj2 (H "deleteByText" (VStr "missing"))) eq_refl). reflexivity.
  - apply (proj2 (proj2 (H "UPDATE_TODO" VUndefined))); discriminate.
  - apply (proj2 (proj2 (H "CLEAR_TODO" VUndefined))); discriminate.
  - apply (proj2 (proj2 (H "bogus" milk))); discriminate.
Defined.

(** C10.  Without a command, [execute] raises a TypeError and the world is
    as before: neither [add] nor [deleteByText] has been reached. *)
Theorem execute_without_command_raises (w : World) :
  CE.execute VNull w = (Throw TypeError, w) /\
  CE.execute VUndefined w = (Throw TypeError, w).
Proof. split; reflexivity. Qed.

(** ** A [null] payload *)

Lemma equals_nullish (todo p : value) :
  is_item todo = true -> nullish p = true ->
  TodoItem.equals todo p = Throw TypeError.
Proof.
  destruct todo; try discriminate. destruct p; try discriminate; reflexivity.
Qed.

(** C8, as the code has it.  On a store that holds at least one entry,
    [add(null)] (or [add(undefined)]) raises a TypeError before anything is
    changed or notified.  On the empty store nothing is compared and [add]
    raises no error of its own: the payload is inserted and [notify] is
    entered once; [true] is returned when every callback completes, and
    when one raises [add] ends with the exception of the first callback
    that raises, the payload staying in the collection. *)
Theorem add_null_raises_unless_empty (w : World) (p : value) :
  nullish p = true ->
  forallb is_item (data w) = true ->
  (data w <> [] -> TodoList.add p w = (Throw TypeError, w))
  /\
  (data w = [] ->
     data (snd (TodoList.add p w)) = [p] /\
     notifications (snd (TodoList.add p w)) = S (notifications w) /\
     (observers_return (observers w) [p] (localStorage w) = true ->
        TodoList.add p w = (Ok true, notified_all (set_data [p] w))) /\
     (observers_return (observers w) [p] (localStorage w) = false ->
        exists pre c post,
          observers w = pre ++ c :: post /\
          observers_return pre [p] (localStorage w) = true /\
          snd (cb_body c [p] (storage_after pre [p] (localStorage w))) = false /\
          TodoList.add p w
          = (Throw (Raised (cb_id c)),
             notified (map cb_id pre ++ [cb_id c])
               (fst (cb_body c [p] (storage_after pre [p] (localStorage w))))
               (set_data [p] w)))).
Proof.
  intros Hp Hd. split.
  - intros Hne. unfold TodoList.add, TodoList.exists_, bind, gets, lift.
    destruct (data w) as [|x d]; [contradiction|].
    simpl in Hd. apply andb_prop in Hd as [Hx _].
    cbn [Array_some]. now rewrite equals_nullish.
  - intros He.
    assert (E : TodoList.add p w = (notify ;; ret true) (set_data [p] w)).
    { unfold TodoList.add, TodoList.exists_, bind at 1 2, gets, lift.
      rewrite He. cbn [Array_some]. unfold bind at 1, modify. cbv beta.
      now rewrite He. }
    rewrite E.
    destruct (notify_then_ret true (set_data [p] w)) as (D & O & N).
    repeat split; auto.
    + intros Hr. now rewrite notify_then_ret_all by exact Hr.
    + intros Hr. exact (notify_then_ret_raises true (set_data [p] w) Hr).
Qed.

Lemma add_null_raises_unless_empty_witness :
  (nullish VNull = true /\ forallb is_item (data one_entry) = true /\
   data one_entry <> []) /\
  TodoList.add VNull one_entry = (Throw TypeError, one_entry) /\
  (forallb is_item (data started_empty) = true /\ data started_empty = []) /\
  data (snd (TodoList.add VNull started_empty)) = [VNull] /\
  notifications (snd (TodoList.add VNull started_empty)) = 1.
Proof.
  assert (Hne : data one_entry <> []) by discriminate.
  split; [repeat split; auto|]. split; [|split; [split; reflexivity|]].
  - exact (proj1 (add_null_raises_unless_empty one_entry VNull eq_refl eq_refl) Hne).
  - pose proof (proj2 (add_null_raises_unless_empty started_empty VNull
                         eq_refl eq_refl) eq_refl) as H.
    split; [exact (proj1 H)|exact (proj1 (proj2 H))].
Defined.

(** C8, as the specification states it, does not hold on the empty store.
    With no observer registered, [add(null)] does not raise: it inserts
    [null], notifies and returns [true].  With the observers of the
    application, [add(null)] inserts [null] and notifies as well: [save]
    stores the snapshot [[null]], and the exception that ends [add] is the
    one [renderTodoList] raises afterwards. *)
Lemma add_null_accepted_by_empty_store :
  (~ (exists e : exn, fst (TodoList.add VNull (initial [])) = Throw e)
   /\ TodoList.add VNull (initial []) = (Ok true, mkWorld [VNull] [] [] 0 1 []))
  /\
  (fst (TodoList.add VNull started_empty) = Throw (Raised renderTodoList_id) /\
   data (snd (TodoList.add VNull started_empty)) = [VNull] /\
   notifications (snd (TodoList.add VNull started_empty)) = 1 /\
   calls (snd (TodoList.add VNull started_empty)) = [save_id; renderTodoList_id] /\
   localStorage (snd (TodoList.add VNull started_empty)) = [("todoList", "[null]")]).
Proof.
  split.
  - split; [|reflexivity].
    intros [e H]. discriminate H.
  - repeat split; reflexivity.
Qed.

(** ** Loading the stored snapshot *)

Lemma load_run (w : World) :
  LocalStorage.load w
  = match getItem "todoList" (localStorage w) with
    | None => (Ok tt, w)
    | Some text =>
        if String.eqb text "" then (Ok tt, w)
        else (list <- JSON.parse text ;; TodoList.replaceList list) w
    end.
Proof.
  unfold LocalStorage.load, bind at 1, gets.
  destruct (getItem "todoList" (localStorage w)) as [text|]; auto.
  now destruct (String.eqb text "").
Qed.

(** C7, as the code has it.  [load] does nothing when nothing (or the empty
    string) is stored under the key.  When the stored text is not a JSON
    text, the store is left as it is and the SyntaxError of [JSON.parse]
    leaves [load].  When it is a JSON text, [replaceList] is called on the
    value it denotes.  These are all the cases. *)
Theorem load_replaces_or_raises (w : World) :
  (getItem "todoList" (localStorage w) = None ->
     LocalStorage.load w = (Ok tt, w))
  /\
  (getItem "todoList" (localStorage w) = Some "" ->
     LocalStorage.load w = (Ok tt, w))
  /\
  (forall text : string,
     getItem "todoList" (localStorage w) = Some text ->
     text <> "" ->
     JSON.parse_text text <> JSON.OutOfFuel /\
     (JSON.parse_text text = JSON.Invalid ->
        LocalStorage.load w = (Throw SyntaxError, w)) /\
     (forall j : JSON.json,
        JSON.parse_text text = JSON.Parsed j ->
        LocalStorage.load w
        = TodoList.replaceList (fst (JSON.reify j (next_loc w)))
            (set_next_loc (snd (JSON.reify j (next_loc w))) w))).
Proof.
  rewrite load_run.
  split; [now intros ->|]. split; [now intros ->|].
  intros text -> Hne. apply String.eqb_neq in Hne. rewrite Hne.
  split; [apply parse_text_decides|]. split.
  - intros Hi. unfold bind, JSON.parse. now rewrite Hi.
  - intros j Hj. unfold bind at 1, JSON.parse. rewrite Hj.
    unfold bind at 1, gets.
    destruct (JSON.reify j (next_loc w)) as [v n'] eqn:E.
    reflexivity.
Qed.

Lemma load_replaces_or_raises_witness :
  (getItem "todoList" (localStorage stored_eggs) = Some eggs_blob /\
   eggs_blob <> "" /\
   JSON.parse_text eggs_blob = JSON.Parsed (JSON.JArr [JSON.JObj [("text", JSON.JStr "Buy eggs")]])) /\
  LocalStorage.load stored_eggs
  = (Ok tt, mkWorld [VItem 3 (VStr "Buy eggs")] [render]
                    [("todoList", eggs_blob)] 4 1 [7])
  /\
  (getItem "todoList" (localStorage stored_garbage) = Some "[{" /\
   JSON.parse_text "[{" = JSON.Invalid) /\
  LocalStorage.load stored_garbage = (Throw SyntaxError, stored_garbage).
Proof.
  assert (Hne : eggs_blob <> "") by discriminate.
  assert (Hng : "[{" <> "") by discriminate.
  refine (conj (conj eq_refl (conj Hne eq_refl)) (conj _ (conj (conj eq_refl eq_refl) _))).
  - rewrite (proj2 (proj2 (proj2 (proj2 (load_replaces_or_raises stored_eggs))
                             eggs_blob eq_refl Hne)) _ eq_refl).
    reflexivity.
  - exact (proj1 (proj2 (proj2 (proj2 (load_replaces_or_raises stored_garbage))
                           "[{" eq_refl Hng)) eq_refl).
Defined.

(** C7, as the specification states it, does not hold: with a stored text
    that is not JSON, [load] raises; with the stored JSON text [null] it
    raises after the collection was emptied. *)
Lemma load_raises_on_malformed_snapshot :
  getItem "todoList" (localStorage stored_garbage) = Some "[{"
  /\ JSON.parse_text "[{" = JSON.Invalid
  /\ LocalStorage.load stored_garbage = (Throw SyntaxError, stored_garbage)
  /\ fst (LocalStorage.load stored_garbage) <> Ok tt
  /\ LocalStorage.load stored_null
     = (Throw TypeError, mkWorld [] [render] [("todoList", "null")] 1 0 []).
Proof. repeat split. discriminate. Qed.

(** ** Value equality of entries *)

Lemma strict_eq_trans (a b c : value) :
  strict_eq a b = true -> strict_eq b c = true -> strict_eq a c = true.
Proof.
  destruct a, b; simpl; try discriminate; destruct c; simpl; try discriminate;
    intros H1 H2; auto.
  - apply Bool.eqb_prop in H1, H2. subst. apply Bool.eqb_reflx.
  - apply andb_prop in H1 as [H1 H1'], H2 as [H2 H2'].
    apply Z.eqb_eq in H1, H1', H2, H2'. subst. now rewrite !Z.eqb_refl.
  - apply String.eqb_eq in H1, H2. subst. apply String.eqb_refl.
  - apply Nat.eqb_eq in H1, H2. subst. apply Nat.eqb_refl.
  - apply Nat.eqb_eq in H1, H2. subst. apply Nat.eqb_refl.
  - apply Nat.eqb_eq in H1, H2. subst. apply Nat.eqb_refl.
Qed.

Lemma equals_items (a b : value) :
  is_item a = true -> is_item b = true ->
  TodoItem.equals a b = Ok (strict_eq (text_of a) (text_of b)).
Proof. destruct a, b; try discriminate; reflexivity. Qed.

(** X1.  On instances of [TodoItem], [equals] never raises, compares the two
    texts and nothing else (two objects with one text are equal although
    [===] tells them apart), and is reflexive, symmetric and transitive. *)
Theorem equals_is_an_equivalence_on_texts (a b c : value) :
  is_item a = true -> is_item b = true -> is_item c = true ->
  TodoItem.equals a b = Ok (strict_eq (text_of a) (text_of b)) /\
  TodoItem.equals a a = Ok true /\
  TodoItem.equals a b = TodoItem.equals b a /\
  (TodoItem.equals a b = Ok true -> TodoItem.equals b c = Ok true ->
   TodoItem.equals a c = Ok true).
Proof.
  intros Ha Hb Hc. rewrite !equals_items by assumption.
  repeat split.
  - now rewrite strict_eq_refl.
  - now rewrite strict_eq_sym.
  - intros H1 H2. injection H1 as H1. injection H2 as H2.
    now rewrite (strict_eq_trans _ _ _ H1 H2).
Qed.

Lemma equals_is_an_equivalence_on_texts_witness :
  (is_item eggs = true /\ is_item more_eggs = true) /\
  strict_eq eggs more_eggs = false /\
  TodoItem.equals eggs more_eggs = Ok true.
Proof.
  refine (conj (conj eq_refl eq_refl) (conj eq_refl _)).
  exact (proj1 (equals_is_an_equivalence_on_texts
                  eggs more_eggs eggs eq_refl eq_refl eq_refl)).
Defined.

(** ** Lookups *)

Lemma find_splits (t : value) (d : list value) (x : value) :
  find (fun y => strict_eq (text_of y) t) d = Some x ->
  exists pre post,
    d = pre ++ x :: post /\ holds_text t pre = false /\
    strict_eq (text_of x) t = true.
Proof.
  induction d as [|y d IH]; simpl; [discriminate|].
  destruct (strict_eq (text_of y) t) eqn:E.
  - intros H. injection H as <-. now exists [], d.
  - intros H. destruct (IH H) as (pre & post & -> & Hpre & Hx).
    exists (y :: pre), post. simpl. now rewrite E.
Qed.

Lemma find_none_iff (t : value) (d : list value) :
  find (fun y => strict_eq (text_of y) t) d = None -> holds_text t d = false.
Proof.
  induction d as [|y d IH]; simpl; auto.
  destruct (strict_eq (text_of y) t); [discriminate|auto].
Qed.

Lemma forallb_is_item_middle (x : value) (pre post : list value) :
  forallb is_item (pre ++ x :: post) = true ->
  forallb is_item pre = true /\ is_item x = true /\ forallb is_item post = true.
Proof.
  rewrite forallb_app. simpl. intros H.
  apply andb_prop in H as [H1 H]. apply andb_prop in H as [H2 H3]. auto.
Qed.

(** X2.  On a store of entries, [findByText(t)] leaves the world as it is
    (no notification) and returns either [undefined], when no entry has the
    text [t], or the first entry in insertion order whose text is [t]. *)
Theorem findByText_returns_first_match (w : World) (t : value) :
  forallb is_item (data w) = true ->
  exists r : value,
    TodoList.findByText t w = (Ok r, w) /\
    ((r = VUndefined /\ holds_text t (data w) = false) \/
     (is_item r = true /\
      exists pre post,
        data w = pre ++ r :: post /\ holds_text t pre = false /\
        strict_eq (text_of r) t = true)).
Proof.
  intros Hd. rewrite findByText_run by assumption.
  destruct (find (fun x => strict_eq (text_of x) t) (data w)) as [x|] eqn:E.
  - exists x. split; auto. right.
    destruct (find_splits t (data w) x E) as (pre & post & Ed & Hpre & Hx).
    split.
    + rewrite Ed in Hd. now apply forallb_is_item_middle in Hd.
    + now exists pre, post.
  - exists VUndefined. split; auto. left. split; auto. now apply find_none_iff.
Qed.

Lemma findByText_returns_first_match_witness :
  forallb is_item (data two_entries) = true /\
  exists r : value,
    TodoList.findByText (VStr "Buy milk") two_entries = (Ok r, two_entries).
Proof.
  split; [reflexivity|].
  destruct (findByText_returns_first_match two_entries (VStr "Buy milk") eq_refl)
    as (r & Hr & _).
  now exists r.
Defined.

Lemma exists_run (w : World) (e : value) :
  forallb is_item (data w) = true -> is_item e = true ->
  TodoList.exists_ e w = (Ok (holds_text (text_of e) (data w)), w).
Proof.
  intros Hd He. unfold TodoList.exists_, bind, gets, lift.
  now rewrite exists_on_items.
Qed.

Lemma find_truthy (t : value) (d : list value) :
  forallb is_item d = true ->
  truthy (match find (fun x => strict_eq (text_of x) t) d with
          | Some x => x
          | None => VUndefined
          end)
  = holds_text t d.
Proof.
  induction d as [|y d IH]; simpl; auto.
  intros H. apply andb_prop in H as [Hy H].
  destruct (strict_eq (text_of y) t); simpl; auto.
  now destruct y.
Qed.

(** X3.  On a store of entries the two lookups agree: [exists(e)] is [true]
    exactly when [findByText(e.text)] returns an entry rather than
    [undefined]; neither changes the world. *)
Theorem exists_agrees_with_findByText (w : World) (e : value) :
  forallb is_item (data w) = true -> is_item e = true ->
  exists r : value,
    TodoList.findByText (text_of e) w = (Ok r, w) /\
    TodoList.exists_ e w = (Ok (truthy r), w).
Proof.
  intros Hd He. rewrite findByText_run, exists_run by assumption.
  eexists. split; [reflexivity|]. now rewrite find_truthy.
Qed.

Lemma exists_agrees_with_findByText_witness :
  (forallb is_item (data two_entries) = true /\ is_item more_eggs = true) /\
  exists r : value,
    TodoList.findByText (VStr "Buy eggs") two_entries = (Ok r, two_entries) /\
    TodoList.exists_ more_eggs two_entries = (Ok (truthy r), two_entries).
Proof.
  split; [split; reflexivity|].
  exact (exists_agrees_with_findByText two_entries more_eggs eq_refl eq_refl).
Defined.

(** ** How the store operations compose *)

Lemma add_data (w : World) (e : value) :
  forallb is_item (data w) = true -> is_item e = true ->
  coherent_with e (data w) = true ->
  data (snd (TodoList.add e w))
  = if holds_text (text_of e) (data w) then data w else data w ++ [e].
Proof.
  intros Hd He Hc. destruct (holds_text (text_of e) (data w)) eqn:Hp.
  - now rewrite add_present.
  - rewrite add_absent by assumption.
    now destruct (notify_then_ret true (set_data (data w ++ [e]) w)) as (D & _).
Qed.

Lemma holds_text_app (t : value) (d1 d2 : list value) :
  holds_text t (d1 ++ d2) = holds_text t d1 || holds_text t d2.
Proof. unfold holds_text. apply existsb_app. Qed.

(** X4.  Whatever the observers do, once [add(e)] has run on a store of
    entries, [exists(e)] is [true] and [findByText(e.text)] returns an
    entry; when no entry had that text before, the entry returned is [e]
    itself. *)
Theorem add_then_lookup (w : World) (e : value) :
  forallb is_item (data w) = true -> is_item e = true ->
  coherent_with e (data w) = true ->
  let w1 := snd (TodoList.add e w) in
  TodoList.exists_ e w1 = (Ok true, w1) /\
  (exists r, TodoList.findByText (text_of e) w1 = (Ok r, w1) /\ is_item r = true /\
             strict_eq (text_of r) (text_of e) = true) /\
  (holds_text (text_of e) (data w) = false ->
   TodoList.findByText (text_of e) w1 = (Ok e, w1)).
Proof.
  intros Hd He Hc. cbv zeta.
  pose proof (add_data w e Hd He Hc) as D.
  assert (Hd1 : forallb is_item (data (snd (TodoList.add e w))) = true).
  { rewrite D. destruct (holds_text _ _); auto using forallb_is_item_snoc. }
  assert (Hh : holds_text (text_of e) (data (snd (TodoList.add e w))) = true).
  { rewrite D. destruct (holds_text _ _) eqn:E; auto using holds_text_last. }
  split; [|split].
  - now rewrite exists_run, Hh.
  - rewrite findByText_run by assumption.
    destruct (find _ _) as [x|] eqn:E.
    + exists x. split; auto.
      destruct (find_splits _ _ _ E) as (pre & post & Ed & _ & Hx).
      rewrite Ed in Hd1. apply forallb_is_item_middle in Hd1. tauto.
    + apply find_none_iff in E. congruence.
  - intros Hn. rewrite findByText_run by assumption.
    rewrite D, Hn. rewrite (find_first (text_of e) e (data w) []); auto.
    apply strict_eq_refl.
Qed.

Lemma add_then_lookup_witness :
  (forallb is_item (data one_entry) = true /\ is_item milk = true /\
   coherent_with milk (data one_entry) = true /\
   holds_text (text_of milk) (data one_entry) = false) /\
  TodoList.findByText (VStr "Buy milk") (snd (TodoList.add milk one_entry))
  = (Ok milk, snd (TodoList.add milk one_entry)).
Proof.
  split; [repeat split|].
  exact (proj2 (proj2 (add_then_lookup one_entry milk eq_refl eq_refl eq_refl))
           eq_refl).
Defined.

Lemma distinct_objects_snoc (e : value) (d : list value) :
  distinct_objects d = true -> Set_has d e = false ->
  distinct_objects (d ++ [e]) = true.
Proof.
  unfold Set_has. induction d as [|x d IH]; simpl; auto.
  intros H Hn. apply andb_prop in H as [Hx H].
  apply orb_false_elim in Hn as [Hex Hn].
  rewrite IH by assumption. rewrite existsb_app. simpl.
  apply negb_true_iff in Hx. rewrite Hx, Hex. reflexivity.
Qed.

Lemma Set_has_fresh (e : value) (d : list value) :
  coherent_with e d = true -> holds_text (text_of e) d = false ->
  Set_has d e = false.
Proof.
  intros Hc Hn. unfold Set_has.
  induction d as [|x d IH]; simpl; auto.
  simpl in Hc, Hn. apply andb_prop in Hc as [Hx Hc].
  apply orb_false_elim in Hn as [Hnx Hn].
  rewrite IH by assumption.
  destruct (strict_eq e x); simpl in *; auto.
  unfold same_text in Hx. congruence.
Qed.

(** X5.  On a store of entries, adding an entry whose text is new and then
    deleting by that text gives the collection back as it was; [notify] has
    been entered twice. *)
Theorem add_then_deleteByText_restores (w : World) (e : value) :
  forallb is_item (data w) = true -> distinct_objects (data w) = true ->
  is_item e = true -> coherent_with e (data w) = true ->
  holds_text (text_of e) (data w) = false ->
  let w1 := snd (TodoList.add e w) in
  let w2 := snd (TodoList.deleteByText (text_of e) w1) in
  data w2 = data w /\ notifications w2 = 2 + notifications w.
Proof.
  intros Hd Hs He Hc Hn. cbv zeta.
  rewrite (add_absent w e Hd He Hc Hn).
  destruct (notify_then_ret true (set_data (data w ++ [e]) w)) as (D & _ & N).
  simpl in D, N.
  set (w1 := snd ((notify;; ret true) (set_data (data w ++ [e]) w))) in *.
  rewrite (deleteByText_found w1 (text_of e) e (data w) []).
  - destruct (notify_then_ret true (set_data (data w ++ []) w1)) as (D2 & _ & N2).
    simpl in D2, N2. rewrite D2, N2, N, app_nil_r. auto.
  - rewrite D. auto using forallb_is_item_snoc.
  - rewrite D. apply distinct_objects_snoc; auto using Set_has_fresh.
  - exact D.
  - exact Hn.
  - apply strict_eq_refl.
Qed.

Lemma add_then_deleteByText_restores_witness :
  (forallb is_item (data one_entry) = true /\
   distinct_objects (data one_entry) = true /\
   is_item milk = true /\ coherent_with milk (data one_entry) = true /\
   holds_text (text_of milk) (data one_entry) = false) /\
  data (snd (TodoList.deleteByText (VStr "Buy milk")
               (snd (TodoList.add milk one_entry))))
  = [eggs].
Proof.
  split; [repeat split|].
  exact (proj1 (add_then_deleteByText_restores
                  one_entry milk eq_refl eq_refl eq_refl eq_refl eq_refl)).
Defined.

Lemma unique_texts_middle (t x : value) (pre post : list value) :
  unique_texts (pre ++ x :: post) = true ->
  strict_eq (text_of x) t = true ->
  holds_text t post = false.
Proof.
  induction pre as [|p pre IH]; simpl; intros H Hx.
  - apply andb_prop in H as [H _]. apply negb_true_iff in H.
    unfold holds_text. induction post as [|y post IHp]; simpl in *; auto.
    apply orb_false_elim in H as [Hy H]. rewrite (IHp H), orb_false_r.
    destruct (strict_eq (text_of y) t) eqn:E; auto.
    unfold same_text in Hy. rewrite strict_eq_sym in E.
    now rewrite (strict_eq_trans _ _ _ Hx E) in Hy.
  - apply andb_prop in H as [_ H]. auto.
Qed.

(** X6.  On a store of entries with pairwise different texts, a successful
    [deleteByText(t)] leaves no entry with the text [t], takes exactly one
    entry away, and a second [deleteByText(t)] returns [false] and changes
    nothing. *)
Theorem deleteByText_twice (w : World) (t : value) :
  forallb is_item (data w) = true -> distinct_objects (data w) = true ->
  unique_texts (data w) = true ->
  holds_text t (data w) = true ->
  let w1 := snd (TodoList.deleteByText t w) in
  holds_text t (data w1) = false /\
  S (List.length (data w1)) = List.length (data w) /\
  TodoList.deleteByText t w1 = (Ok false, w1).
Proof.
  intros Hd Hs Hu Hh. cbv zeta.
  destruct (find (fun x => strict_eq (text_of x) t) (data w)) as [x|] eqn:E.
  2:{ apply find_none_iff in E. congruence. }
  destruct (find_splits _ _ _ E) as (pre & post & Ed & Hpre & Hx).
  rewrite (deleteByText_found w t x pre post Hd Hs Ed Hpre Hx).
  destruct (notify_then_ret true (set_data (pre ++ post) w)) as (D & _).
  simpl in D.
  assert (Hgone : holds_text t (pre ++ post) = false).
  { rewrite holds_text_app, Hpre. rewrite Ed in Hu.
    now rewrite (unique_texts_middle t x pre post Hu Hx). }
  rewrite D. repeat split; auto.
  - rewrite Ed, !length_app. simpl. lia.
  - apply deleteByText_absent; rewrite D; auto.
    rewrite Ed in Hd. apply forallb_is_item_middle in Hd as (H1 & _ & H3).
    rewrite forallb_app. now rewrite H1, H3.
Qed.

Lemma deleteByText_twice_witness :
  (forallb is_item (data two_entries) = true /\
   distinct_objects (data two_entries) = true /\
   unique_texts (data two_entries) = true /\
   holds_text (VStr "Buy eggs") (data two_entries) = true) /\
  holds_text (VStr "Buy eggs")
    (data (snd (TodoList.deleteByText (VStr "Buy eggs") two_entries))) = false.
Proof.
  split; [repeat split|].
  exact (proj1 (deleteByText_twice two_entries (VStr "Buy eggs")
                  eq_refl eq_refl eq_refl eq_refl)).
Defined.

(** ** The shape of the collection *)

Lemma forallb_is_item_filter (g : value -> bool) (d : list value) :
  forallb is_item d = true -> forallb is_item (filter g d) = true.
Proof.
  induction d as [|x d IH]; simpl; auto.
  intros H. apply andb_prop in H as [Hx H].
  destruct (g x); simpl; auto. now rewrite Hx, IH.
Qed.

Lemma distinct_objects_filter (g : value -> bool) (d : list value) :
  distinct_objects d = true -> distinct_objects (filter g d) = true.
Proof.
  induction d as [|x d IH]; simpl; auto.
  intros H. apply andb_prop in H as [Hx H]. apply negb_true_iff in Hx.
  destruct (g x); simpl; auto.
  now rewrite existsb_filter_false, IH.
Qed.

Lemma rebuilt_items (n : loc) (elems : list value) :
  forallb is_item (rebuilt n elems) = true.
Proof. revert n. induction elems; simpl; auto. Qed.

Lemma rebuilt_above (n m : loc) (t : value) (elems : list value) :
  n < m -> existsb (fun y => strict_eq y (VItem n t)) (rebuilt m elems) = false.
Proof.
  revert m. induction elems as [|r elems IH]; simpl; auto.
  intros m H. rewrite IH by lia. rewrite orb_false_r.
  apply Nat.eqb_neq. lia.
Qed.

Lemma rebuilt_distinct (n : loc) (elems : list value) :
  distinct_objects (rebuilt n elems) = true.
Proof.
  revert n. induction elems as [|r elems IH]; simpl; auto.
  intros n. rewrite rebuilt_above by lia. now rewrite IH.
Qed.

Lemma replaceList_data (l : loc) (elems : list value) (w : World) :
  forallb (fun r => negb (nullish r)) elems = true ->
  data (snd (TodoList.replaceList (VArray l elems) w)) = rebuilt (next_loc w) elems.
Proof.
  intros Hr. rewrite replaceList_array by assumption.
  match goal with
  | |- context [notify ?w0] => destruct (notify_frame w0) as (D & _)
  end.
  now rewrite D.
Qed.

Lemma replaceList_one_entry_per_element_aux
  (l : loc) (elems : list value) (w : World) :
  forallb (fun r => negb (nullish r)) elems = true ->
  data (snd (TodoList.replaceList (VArray l elems) w)) = rebuilt (next_loc w) elems /\
  notifications (snd (TodoList.replaceList (VArray l elems) w)) = S (notifications w).
Proof.
  intros Hr. rewrite replaceList_array by assumption.
  match goal with
  | |- context [notify ?w0] => destruct (notify_frame w0) as (D & _ & _ & N)
  end.
  now rewrite D, N.
Qed.

Lemma deleteByText_data (w : World) (t : value) :
  forallb is_item (data w) = true ->
  exists g, data (snd (TodoList.deleteByText t w)) = filter g (data w).
Proof.
  intros Hd. unfold TodoList.deleteByText.
  rewrite (bind_ok _ _ _ _ _ (findByText_run w t Hd)).
  destruct (negb (truthy _)).
  - exists (fun _ => true). simpl. clear. induction (data w); simpl; congruence.
  - unfold bind at 1, modify. cbv beta.
    match goal with
    | |- context [set_data ?d w] =>
        destruct (notify_then_ret true (set_data d w)) as (D & _)
    end.
    rewrite D. eexists. reflexivity.
Qed.

(** X7.  The collection stays a set of entries: when it holds instances of
    [TodoItem], no object twice, it still does after [add] of an entry,
    after [deleteByText], and after [replaceList] of an array without
    [null] or [undefined] elements (whatever it held before). *)
Theorem collection_stays_a_set_of_entries :
  (forall (w : World) (e : value),
     forallb is_item (data w) = true -> distinct_objects (data w) = true ->
     is_item e = true -> coherent_with e (data w) = true ->
     forallb is_item (data (snd (TodoList.add e w))) = true /\
     distinct_objects (data (snd (TodoList.add e w))) = true)
  /\
  (forall (w : World) (t : value),
     forallb is_item (data w) = true -> distinct_objects (data w) = true ->
     forallb is_item (data (snd (TodoList.deleteByText t w))) = true /\
     distinct_objects (data (snd (TodoList.deleteByText t w))) = true)
  /\
  (forall (w : World) (l : loc) (elems : list value),
     forallb (fun r => negb (nullish r)) elems = true ->
     forallb is_item (data (snd (TodoList.replaceList (VArray l elems) w))) = true /\
     distinct_objects (data (snd (TodoList.replaceList (VArray l elems) w))) = true).
Proof.
  split; [|split].
  - intros w e Hd Hs He Hc. rewrite add_data by assumption.
    destruct (holds_text (text_of e) (data w)) eqn:Hn; auto.
    split; auto using forallb_is_item_snoc.
    apply distinct_objects_snoc; auto using Set_has_fresh.
  - intros w t Hd Hs. destruct (deleteByText_data w t Hd) as [g ->].
    auto using forallb_is_item_filter, distinct_objects_filter.
  - intros w l elems Hr. rewrite replaceList_data by assumption.
    auto using rebuilt_items, rebuilt_distinct.
Qed.

Lemma collection_stays_a_set_of_entries_witness :
  (forallb is_item (data one_entry) = true /\
   distinct_objects (data one_entry) = true /\
   is_item milk = true /\ coherent_with milk (data one_entry) = true) /\
  distinct_objects (data (snd (TodoList.add milk one_entry))) = true /\
  distinct_objects
    (data (snd (TodoList.replaceList three_records before_replace))) = true.
Proof.
  split; [repeat split|]. split.
  - exact (proj2 (proj1 collection_stays_a_set_of_entries
                    one_entry milk eq_refl eq_refl eq_refl eq_refl)).
  - exact (proj2 (proj2 (proj2 collection_stays_a_set_of_entries)
                    before_replace 2
                    [record 3 "a"; record 4 "a"; record 5 "b"] eq_refl)).
Defined.

Lemma rebuilt_same_text (n m : loc) (t : value) (elems : list value) :
  existsb (same_text (VItem n t)) (rebuilt m elems)
  = existsb (strict_eq t) (map (fun r => property r "text") elems).
Proof.
  revert m. induction elems as [|r elems IH]; simpl; auto.
  intros m. now rewrite IH.
Qed.

Lemma rebuilt_unique_texts (n : loc) (elems : list value) :
  unique_texts (rebuilt n elems)
  = distinct_values (map (fun r => property r "text") elems).
Proof.
  revert n. induction elems as [|r elems IH]; simpl; auto.
  intros n. now rewrite rebuilt_same_text, IH.
Qed.

(** X8.  After [replaceList] of an array without [null] or [undefined]
    elements, the entries have pairwise different texts exactly when the
    [text] properties of the elements are pairwise different. *)
Theorem replaceList_unique_iff_input_distinct
  (w : World) (l : loc) (elems : list value) :
  forallb (fun r => negb (nullish r)) elems = true ->
  unique_texts (data (snd (TodoList.replaceList (VArray l elems) w)))
  = distinct_values (map (fun r => property r "text") elems).
Proof.
  intros Hr. rewrite replaceList_data by assumption. apply rebuilt_unique_texts.
Qed.

Lemma replaceList_unique_iff_input_distinct_witness :
  forallb (fun r => negb (nullish r)) [record 3 "a"; record 4 "b"] = true /\
  unique_texts
    (data (snd (TodoList.replaceList (VArray 2 [record 3 "a"; record 4 "b"])
                  before_replace)))
  = true.
Proof.
  split; [reflexivity|].
  exact (replaceList_unique_iff_input_distinct
           before_replace 2 [record 3 "a"; record 4 "b"] eq_refl).
Defined.

Lemma replaceList_turn_nullish (r : value) (w : World) :
  nullish r = true ->
  (text <- lift (get r "text") ;;
   completed <- lift (get r "completed") ;;
   todoItem <- TodoItem.new text completed ;;
   modify (fun w => set_data (Set_add (data w) todoItem) w)) w
  = (Throw TypeError, w).
Proof. destruct r; try discriminate; reflexivity. Qed.

Lemma replaceList_loop_stops (pre post : list value) (bad : value) (w : World) :
  forallb (fun r => negb (nullish r)) pre = true ->
  nullish bad = true ->
  below (next_loc w) (data w) = true ->
  forEach (fun item =>
             text <- lift (get item "text") ;;
             completed <- lift (get item "completed") ;;
             todoItem <- TodoItem.new text completed ;;
             modify (fun w => set_data (Set_add (data w) todoItem) w))
          (pre ++ bad :: post) w
  = (Throw TypeError,
     set_next_loc (next_loc w + List.length pre)
       (set_data (data w ++ rebuilt (next_loc w) pre) w)).
Proof.
  revert w. induction pre as [|r pre IH]; intros w Hr Hbad Hb.
  - cbn [app forEach].
    rewrite (bind_throw _ _ _ _ _ (replaceList_turn_nullish bad w Hbad)).
    destruct w; unfold set_next_loc, set_data; simpl.
    now rewrite Nat.add_0_r, app_nil_r.
  - simpl in Hr. apply andb_prop in Hr as [Hr Hrs].
    apply negb_true_iff in Hr.
    cbn [app forEach].
    rewrite (bind_ok _ _ _ _ _ (replaceList_turn r w Hr Hb)).
    rewrite IH; [|assumption|assumption|now apply below_snoc].
    unfold set_next_loc, set_data; cbn.
    rewrite <- app_assoc. cbn. do 3 f_equal. lia.
Qed.

(** X9.  [replaceList] is not all-or-nothing.  Given an array whose first
    [null] or [undefined] element comes after the elements [pre], it
    raises a TypeError with the collection holding the entries built from
    [pre] only: the old entries are gone, the elements after the bad one
    are not looked at, and [notify] has not been entered. *)
Theorem replaceList_fails_half_way
  (w : World) (l : loc) (pre post : list value) (bad : value) :
  forallb (fun r => negb (nullish r)) pre = true ->
  nullish bad = true ->
  TodoList.replaceList (VArray l (pre ++ bad :: post)) w
  = (Throw TypeError,
     set_next_loc (next_loc w + List.length pre)
       (set_data (rebuilt (next_loc w) pre) w))
  /\ notifications (snd (TodoList.replaceList (VArray l (pre ++ bad :: post)) w))
     = notifications w
  /\ calls (snd (TodoList.replaceList (VArray l (pre ++ bad :: post)) w))
     = calls w.
Proof.
  intros Hpre Hbad.
  assert (E : TodoList.replaceList (VArray l (pre ++ bad :: post)) w
              = (Throw TypeError,
                 set_next_loc (next_loc w + List.length pre)
                   (set_data (rebuilt (next_loc w) pre) w))).
  { unfold TodoList.replaceList.
    unfold bind at 1, modify at 1.
    unfold bind at 1, lift at 1. cbn [array_or_spread].
    now rewrite (bind_throw _ _ _ _ _
                   (replaceList_loop_stops pre post bad (set_data [] w)
                      Hpre Hbad eq_refl)). }
  rewrite E. now repeat split.
Qed.

Lemma replaceList_fails_half_way_witness :
  (forallb (fun r => negb (nullish r)) [record 3 "a"] = true /\
   nullish VNull = true) /\
  TodoList.replaceList (VArray 2 [record 3 "a"; VNull; record 5 "b"]) before_replace
  = (Throw TypeError, mkWorld [VItem 6 (VStr "a")] [render] [] 7 0 []).
Proof.
  split; [split; reflexivity|].
  exact (proj1 (replaceList_fails_half_way before_replace
                  2 [record 3 "a"] [record 5 "b"] VNull eq_refl eq_refl)).
Defined.

(** ** Registering and unregistering observers *)

Lemma set_observers_same (w : World) : set_observers (observers w) w = w.
Proof. now destruct w. Qed.

Lemma removeObserver_run (c : callback) (w : World) :
  removeObserver c w
  = (Ok tt, set_observers
              (filter (fun o => negb (Nat.eqb (cb_id o) (cb_id c))) (observers w)) w).
Proof. reflexivity. Qed.

Lemma filter_unregistered (c : callback) (obs : list callback) :
  has_observer c obs = false ->
  filter (fun o => negb (Nat.eqb (cb_id o) (cb_id c))) obs = obs.
Proof.
  unfold has_observer. induction obs as [|o obs IH]; simpl; auto.
  intros H. apply orb_false_elim in H as [-> H]. simpl. now rewrite IH.
Qed.

Lemma filter_ids (c : callback) (obs : list callback) :
  map cb_id (filter (fun o => negb (Nat.eqb (cb_id o) (cb_id c))) obs)
  = remove Nat.eq_dec (cb_id c) (map cb_id obs).
Proof.
  induction obs as [|o obs IH]; simpl; auto.
  destruct (Nat.eq_dec (cb_id c) (cb_id o)) as [E|E].
  - rewrite E, Nat.eqb_refl. simpl. now rewrite <- E.
  - assert (H : Nat.eqb (cb_id o) (cb_id c) = false)
      by (apply Nat.eqb_neq; congruence).
    rewrite H. simpl. now rewrite IH.
Qed.

Lemma notify_skips_unregistered (w : World) (id : nat) :
  ~ In id (map cb_id (observers w)) ->
  count_occ Nat.eq_dec (calls (snd (notify w))) id
  = count_occ Nat.eq_dec (calls w) id.
Proof.
  intros Hn. unfold notify, bind, modify, gets. cbn [observers count_notification].
  destruct (forEach invoke (observers w) (count_notification w)) as [r w'] eqn:E.
  apply forEach_invoke_logs in E as (ids & E & Hi). cbn [snd].
  rewrite E. cbn [calls count_notification]. rewrite count_occ_app.
  rewrite (proj1 (count_occ_not_In Nat.eq_dec ids id)); [lia|].
  intros H. apply Hn. now apply Hi.
Qed.

(** X10.  [removeObserver(c)] takes [c], and nothing else, out of the
    observer set, the others keeping their order; it changes nothing when
    [c] is not registered; and a notification pass after it does not
    invoke [c]. *)
Theorem removeObserver_unregisters (w : World) (c : callback) :
  let w1 := snd (removeObserver c w) in
  has_observer c (observers w1) = false /\
  map cb_id (observers w1) = remove Nat.eq_dec (cb_id c) (map cb_id (observers w)) /\
  (has_observer c (observers w) = false -> removeObserver c w = (Ok tt, w)) /\
  count_occ Nat.eq_dec (calls (snd (notify w1))) (cb_id c)
  = count_occ Nat.eq_dec (calls w) (cb_id c).
Proof.
  cbv zeta. rewrite removeObserver_run. cbn [snd observers set_observers].
  assert (Hids : map cb_id
                   (filter (fun o => negb (Nat.eqb (cb_id o) (cb_id c))) (observers w))
                 = remove Nat.eq_dec (cb_id c) (map cb_id (observers w)))
    by apply filter_ids.
  assert (Hout : ~ In (cb_id c)
                   (map cb_id
                      (filter (fun o => negb (Nat.eqb (cb_id o) (cb_id c)))
                         (observers w)))).
  { rewrite Hids. apply remove_In. }
  repeat split; auto.
  - destruct (has_observer c _) eqn:E; auto.
    apply has_observer_in in E. contradiction.
  - intros H. now rewrite filter_unregistered, set_observers_same.
  - now rewrite notify_skips_unregistered.
Qed.

(** X11.  Registering a callback that was not registered and unregistering
    it again gives back the world as it was. *)
Theorem addObserver_then_removeObserver (w : World) (c : callback) :
  has_observer c (observers w) = false ->
  snd (removeObserver c (snd (addObserver c w))) = w.
Proof.
  intros H. rewrite addObserver_run, H. cbn [snd].
  rewrite removeObserver_run. cbn [snd observers set_observers].
  rewrite filter_app. simpl. rewrite Nat.eqb_refl. simpl.
  rewrite filter_unregistered, app_nil_r by assumption.
  now destruct w.
Qed.

Lemma addObserver_then_removeObserver_witness :
  has_observer failing (observers one_entry) = false /\
  snd (removeObserver failing (snd (addObserver failing one_entry))) = one_entry.
Proof.
  split; [reflexivity|].
  exact (addObserver_then_removeObserver one_entry failing eq_refl).
Defined.

(** X12.  When every callback completes, a notification pass invokes the
    registered callbacks in the order of their registration, each exactly
    once. *)
Theorem notify_invokes_each_once_in_order (w : World) :
  distinct_callbacks (observers w) ->
  observers_return (observers w) (data w) (localStorage w) = true ->
  fst (notify w) = Ok tt /\
  calls (snd (notify w)) = calls w ++ map cb_id (observers w) /\
  (forall c : callback,
     has_observer c (observers w) = true ->
     count_occ Nat.eq_dec (map cb_id (observers w)) (cb_id c) = 1).
Proof.
  intros Hd Hr. rewrite notify_all by assumption. repeat split.
  intros c Hc. apply NoDup_count_occ'; auto. now apply has_observer_in.
Qed.

Lemma notify_invokes_each_once_in_order_witness :
  (distinct_callbacks (observers one_entry) /\
   observers_return (observers one_entry) (data one_entry)
     (localStorage one_entry) = true) /\
  calls (snd (notify one_entry)) = [7].
Proof.
  assert (Hd : distinct_callbacks (observers one_entry))
    by (repeat constructor; intros []).
  split; [split; [exact Hd|reflexivity]|].
  exact (proj1 (proj2 (notify_invokes_each_once_in_order one_entry Hd eq_refl))).
Defined.

Lemma removeObserver_unregisters_witness :
  has_observer failing (observers one_entry) = false /\
  removeObserver failing one_entry = (Ok tt, one_entry) /\
  has_observer render (observers (snd (removeObserver render one_entry))) = false.
Proof.
  split; [reflexivity|]. split.
  - exact (proj1 (proj2 (proj2 (removeObserver_unregisters one_entry failing)))
             eq_refl).
  - exact (proj1 (removeObserver_unregisters one_entry render)).
Defined.

(** ** What the operations never do *)

Lemma at_most_one_pass_refl (w : World) : at_most_one_pass w w.
Proof. split; auto. Qed.

Lemma notify_then_ret_pass {A} (a : A) (w0 w : World) :
  observers w = observers w0 -> notifications w = notifications w0 ->
  at_most_one_pass w0 (snd ((notify ;; ret a) w)).
Proof.
  intros Ho Hn. destruct (notify_then_ret a w) as (_ & O & N).
  split; [congruence|right; congruence].
Qed.

Lemma add_pass (item : value) (w : World) :
  at_most_one_pass w (snd (TodoList.add item w)).
Proof.
  unfold TodoList.add, TodoList.exists_, bind at 1 2, gets, lift.
  destruct (Array_some _ _) as [[|]|]; try apply at_most_one_pass_refl.
  unfold bind at 1, modify. now apply notify_then_ret_pass.
Qed.

Lemma deleteByText_pass (text : value) (w : World) :
  at_most_one_pass w (snd (TodoList.deleteByText text w)).
Proof.
  unfold TodoList.deleteByText, TodoList.findByText, bind at 1 2, gets, lift.
  destruct (Array_find _ _) as [r|]; try apply at_most_one_pass_refl.
  destruct (negb (truthy r)); try apply at_most_one_pass_refl.
  unfold bind at 1, modify. now apply notify_then_ret_pass.
Qed.

(** The loop of [replaceList] neither touches the observers nor notifies. *)
Lemma replaceList_loop_silent (elems : list value) (w w' : World) (r : result unit) :
  forEach (fun item =>
             text <- lift (get item "text") ;;
             completed <- lift (get item "completed") ;;
             todoItem <- TodoItem.new text completed ;;
             modify (fun w => set_data (Set_add (data w) todoItem) w)) elems w
  = (r, w') ->
  observers w' = observers w /\ notifications w' = notifications w.
Proof.
  revert w. induction elems as [|x elems IH]; intros w.
  - simpl. unfold ret. intros H. injection H as _ <-. auto.
  - cbn [forEach]. destruct (nullish x) eqn:Hx.
    + rewrite (bind_throw _ _ _ _ _ (replaceList_turn_nullish x w Hx)).
      intros H. injection H as _ <-. auto.
    + unfold bind at 1.
      assert (E : exists v,
                 (text <- lift (get x "text") ;;
                  completed <- lift (get x "completed") ;;
                  todoItem <- TodoItem.new text completed ;;
                  modify (fun w => set_data (Set_add (data w) todoItem) w)) w
                 = (Ok tt, set_data v (set_next_loc (S (next_loc w)) w))).
      { unfold bind, lift. rewrite !(get_non_nullish x _ Hx).
        unfold TodoItem.new, bind, gets, modify, ret. eexists. reflexivity. }
      destruct E as [v ->]. intros H. apply IH in H. exact H.
Qed.

Lemma notify_pass (w0 w : World) :
  observers w = observers w0 -> notifications w = notifications w0 ->
  at_most_one_pass w0 (snd (notify w)).
Proof.
  intros Ho Hn. destruct (notify_frame w) as (_ & O & _ & N).
  split; [congruence|right; congruence].
Qed.

Lemma replaceList_pass_from (list : value) (w0 w : World) :
  observers w = observers w0 -> notifications w = notifications w0 ->
  at_most_one_pass w0 (snd (TodoList.replaceList list w)).
Proof.
  intros Ho Hn. unfold TodoList.replaceList.
  unfold bind at 1, modify at 1. unfold bind at 1, lift at 1.
  destruct (array_or_spread list) as [items|]; [|now split; auto].
  unfold bind at 1.
  match goal with
  | |- context [forEach ?f items ?w1] =>
      destruct (forEach f items w1) as [[[]|x] w'] eqn:E;
      apply replaceList_loop_silent in E as (O & N); cbn in O, N
  end.
  - apply (notify_pass w0 w'); congruence.
  - split; cbn [snd]; [|left]; congruence.
Qed.

Lemma load_pass (w : World) : at_most_one_pass w (snd (LocalStorage.load w)).
Proof.
  rewrite load_run.
  destruct (getItem "todoList" (localStorage w)) as [text|];
    [|apply at_most_one_pass_refl].
  destruct (String.eqb text ""); [apply at_most_one_pass_refl|].
  unfold bind at 1, JSON.parse.
  destruct (JSON.parse_text text) as [j| |]; try apply at_most_one_pass_refl.
  unfold bind at 1, gets.
  destruct (JSON.reify j (next_loc w)) as [v n'].
  unfold bind at 1, modify. unfold ret.
  now apply replaceList_pass_from.
Qed.

Lemma execute_pass (command : value) (w : World) :
  at_most_one_pass w (snd (CE.execute command w)).
Proof.
  unfold CE.execute. unfold bind at 1, lift at 1.
  destruct (get command "type") as [type|]; [|apply at_most_one_pass_refl].
  unfold bind at 1, lift at 1.
  destruct (get command "payload") as [payload|]; [|apply at_most_one_pass_refl].
  repeat match goal with
         | |- context [if strict_eq ?a ?b then _ else _] => destruct (strict_eq a b)
         end; try apply at_most_one_pass_refl.
  - unfold bind. pose proof (add_pass payload w) as H.
    destruct (TodoList.add payload w) as [[b|e] w']; exact H.
  - unfold bind. pose proof (deleteByText_pass payload w) as H.
    destruct (TodoList.deleteByText payload w) as [[b|e] w']; exact H.
Qed.

(** X13.  Whatever they are given and whether they return or raise, [add],
    [deleteByText], [replaceList], [load] and [execute] leave the observer
    set as it is and enter [notify] at most once. *)
Theorem operations_notify_at_most_once (w : World) (v : value) :
  at_most_one_pass w (snd (TodoList.add v w)) /\
  at_most_one_pass w (snd (TodoList.deleteByText v w)) /\
  at_most_one_pass w (snd (TodoList.replaceList v w)) /\
  at_most_one_pass w (snd (LocalStorage.load w)) /\
  at_most_one_pass w (snd (CE.execute v w)).
Proof.
  split; [apply add_pass|].
  split; [apply deleteByText_pass|].
  split; [now apply replaceList_pass_from|].
  split; [apply load_pass|apply execute_pass].
Qed.

(** ** [JSON.parse] reads back what [JSON.stringify] writes *)

Section RoundTrip.
Import JSON JSON_stringify.
Local Open Scope char_scope.

Lemma ascii_eqb_N (c d : ascii) :
  Ascii.eqb c d = (N_of_ascii c =? N_of_ascii d)%N.
Proof.
  destruct (Ascii.eqb_spec c d) as [->|Hne].
  - now rewrite N.eqb_refl.
  - symmetry. apply N.eqb_neq. intros E. apply Hne.
    now rewrite <- (ascii_N_embedding c), <- (ascii_N_embedding d), E.
Qed.

Lemma ascii_of_eqb (c : ascii) (k : N) :
  (N_of_ascii c =? k)%N = true -> c = ascii_of_N k.
Proof.
  intros H. apply N.eqb_eq in H. now rewrite <- H, ascii_N_embedding.
Qed.

Lemma encode_pieces_low (u : N) (ps : list piece) :
  is_high_surrogate u = false ->
  encode_pieces (Unit16 u :: ps) = utf8 u ++ encode_pieces ps.
Proof.
  intros H. cbn [encode_pieces]. destruct ps as [|[c|lo] ps]; auto.
  now rewrite H.
Qed.

(** A control character written as [\u00XX] is read back. *)
Lemma control_escape_read (c : ascii) (cs : list ascii) :
  (N_of_ascii c <? 32)%N = true ->
  exists a b,
    unicode_escape (N_of_ascii c) = ["\"; "u"; "0"; "0"; a; b] /\
    hex4 "0" "0" a b = Some (N_of_ascii c) /\
    utf8 (N_of_ascii c) = [c] /\
    is_high_surrogate (N_of_ascii c) = false.
Proof.
  destruct c as [[] [] [] [] [] [] [] []]; intros H; try discriminate H;
    do 2 eexists; repeat split.
Qed.

Lemma quote_chars_plain (c : ascii) (rest : list ascii) :
  well_formed (c :: rest) = true ->
  (32 <=? N_of_ascii c)%N = true ->
  (N_of_ascii c =? 34)%N = false -> (N_of_ascii c =? 92)%N = false ->
  quote_chars (c :: rest) = c :: quote_chars rest.
Proof.
  intros Hw H32 H34 H92. cbn [quote_chars]. cbv zeta.
  apply N.leb_le in H32.
  assert (E : forall k, (k < 32)%N -> (N_of_ascii c =? k)%N = false)
    by (intros k Hk; apply N.eqb_neq; lia).
  rewrite !E by lia. rewrite H34, H92.
  assert (L : (N_of_ascii c <? 32)%N = false) by (apply N.ltb_ge; lia).
  rewrite L.
  destruct rest as [|b2 [|b3 rest']]; auto.
  cbn [well_formed] in Hw. apply andb_prop in Hw as [Hw _].
  now destruct (surrogate_unit c b2 b3).
Qed.

Lemma well_formed_tail (c : ascii) (rest : list ascii) :
  well_formed (c :: rest) = true -> well_formed rest = true.
Proof. cbn [well_formed]. intros H. now apply andb_prop in H as [_ H]. Qed.

(** One of the two-character escapes: the character [ascii_of_N k] is
    written as a backslash and [e], and read back. *)
Local Ltac two_char_escape k e cs rest ps Hps Hen :=
  exists (Byte (ascii_of_N k) :: ps);
  change (quote_chars (ascii_of_N k :: cs)) with ("\" :: e :: quote_chars cs);
  cbn [app];
  change (lex_string ("\" :: e :: quote_chars cs ++ quote :: rest))
    with (match lex_string (quote_chars cs ++ quote :: rest) with
          | Some (ps', n) => Some (Byte (ascii_of_N k) :: ps', 2 + n)
          | None => None
          end);
  rewrite Hps; split; [reflexivity|];
  cbn [encode_pieces]; now rewrite Hen.

(** The lexer reads the quoted form of a well-formed string back to the
    string, whatever follows the closing quote. *)
Lemma lex_string_quote_chars (cs rest : list ascii) :
  well_formed cs = true ->
  exists ps,
    lex_string (quote_chars cs ++ quote :: rest)
    = Some (ps, S (List.length (quote_chars cs))) /\
    encode_pieces ps = cs.
Proof.
  induction cs as [|c cs IH]; intros Hw.
  - exists []. split; reflexivity.
  - destruct (IH (well_formed_tail _ _ Hw)) as (ps & Hps & Hen).
    destruct (N_of_ascii c =? 8)%N eqn:E8.
    { apply ascii_of_eqb in E8. subst c.
      two_char_escape 8%N "b" cs rest ps Hps Hen. }
    destruct (N_of_ascii c =? 9)%N eqn:E9.
    { apply ascii_of_eqb in E9. subst c.
      two_char_escape 9%N "t" cs rest ps Hps Hen. }
    destruct (N_of_ascii c =? 10)%N eqn:E10.
    { apply ascii_of_eqb in E10. subst c.
      two_char_escape 10%N "n" cs rest ps Hps Hen. }
    destruct (N_of_ascii c =? 12)%N eqn:E12.
    { apply ascii_of_eqb in E12. subst c.
      two_char_escape 12%N "f" cs rest ps Hps Hen. }
    destruct (N_of_ascii c =? 13)%N eqn:E13.
    { apply ascii_of_eqb in E13. subst c.
      two_char_escape 13%N "r" cs rest ps Hps Hen. }
    destruct (N_of_ascii c =? 34)%N eqn:E34.
    { apply ascii_of_eqb in E34. subst c.
      two_char_escape 34%N quote cs rest ps Hps Hen. }
    destruct (N_of_ascii c =? 92)%N eqn:E92.
    { apply ascii_of_eqb in E92. subst c.
      two_char_escape 92%N "\" cs rest ps Hps Hen. }
    destruct (N_of_ascii c <? 32)%N eqn:E32.
    { destruct (control_escape_read c cs E32) as (a & b & Hu & Hh & Hutf & Hhigh).
      exists (Unit16 (N_of_ascii c) :: ps).
      cbn [quote_chars]. cbv zeta. rewrite E8, E9, E10, E12, E13, E34, E92, E32.
      rewrite Hu. cbn [app].
      change (lex_string ("\" :: "u" :: "0" :: "0" :: a :: b
                            :: quote_chars cs ++ quote :: rest))
        with (match hex4 "0" "0" a b,
                    lex_string (quote_chars cs ++ quote :: rest) with
              | Some u, Some (ps', n) => Some (Unit16 u :: ps', 6 + n)
              | _, _ => None
              end).
      rewrite Hh, Hps. split; [reflexivity|].
      rewrite encode_pieces_low, Hutf, Hen by assumption. reflexivity. }
    exists (Byte c :: ps).
    rewrite quote_chars_plain; auto; [|apply N.leb_le; apply N.ltb_ge in E32; lia].
    cbn [app lex_string]. rewrite !ascii_eqb_N.
    change (N_of_ascii quote) with 34%N. change (N_of_ascii "\") with 92%N.
    rewrite E34, E92, E32, Hps. split; [reflexivity|].
    cbn [encode_pieces]. now rewrite Hen.
Qed.

Lemma lex_skip (xs ys : list ascii) :
  lex (List.length xs) (xs ++ ys) = lex 0 ys.
Proof. induction xs as [|x xs IH]; cbn [List.length app lex]; auto. Qed.

Lemma lex_punctuation (c : ascii) (t : token) (rest : list ascii) :
  is_ws c = false -> lex_token [c] = Some (t, 1) ->
  (forall r, lex_token (c :: r) = lex_token [c]) ->
  lex 0 (c :: rest) = option_map (cons t) (lex 0 rest).
Proof.
  intros Hw Ht Hr. cbn [lex]. rewrite Hw, Hr, Ht. cbn [pred].
  now destruct (lex 0 rest).
Qed.

Lemma lex_token_quote (rest : list ascii) :
  lex_token (quote :: rest)
  = match lex_string rest with
    | Some (ps, n) => Some (TString (string_of_list_ascii (encode_pieces ps)), S n)
    | None => None
    end.
Proof. reflexivity. Qed.

Lemma lex_quoted (s : string) (rest : list ascii) :
  well_formed (list_ascii_of_string s) = true ->
  lex 0 (quote_json s ++ rest) = option_map (cons (TString s)) (lex 0 rest).
Proof.
  intros Hw. unfold quote_json. cbn [app]. rewrite <- app_assoc. cbn [app].
  destruct (lex_string_quote_chars (list_ascii_of_string s) rest Hw)
    as (ps & Hps & Hen).
  cbn [lex]. change (is_ws quote) with false. cbv iota.
  rewrite lex_token_quote, Hps. cbn [pred].
  rewrite Hen, string_of_list_ascii_of_string.
  replace (S (List.length (quote_chars (list_ascii_of_string s))))
    with (List.length (quote_chars (list_ascii_of_string s) ++ [quote]))
    by (rewrite length_app; simpl; lia).
  replace (quote_chars (list_ascii_of_string s) ++ quote :: rest)
    with ((quote_chars (list_ascii_of_string s) ++ [quote]) ++ rest)
    by (now rewrite <- app_assoc).
  rewrite lex_skip. now destruct (lex 0 rest).
Qed.

End RoundTrip.

Section SnapshotRoundTrip.
Import JSON JSON_stringify.
Local Open Scope char_scope.

Lemma serialize_entry (l : loc) (s : string) :
  serialize (VItem l (VStr s)) = Some (entry_chars s).
Proof.
  unfold entry_chars.
  change (serialize (VItem l (VStr s)))
    with (Some ("{" :: (quote_json "text" ++ ":" :: quote_json s) ++ ["}"])).
  now rewrite <- app_assoc.
Qed.

Lemma serialize_entries (l : loc) (items : list value) :
  forallb string_entry items = true ->
  serialize (VArray l items)
  = Some ("[" :: join (map (fun v => entry_chars (text_string v)) items) ++ ["]"]).
Proof.
  intros H. cbn [serialize].
  match goal with
  | |- Some (_ :: join ?g ++ _) = _ =>
      replace g with (map (fun v => entry_chars (text_string v)) items);
        [reflexivity|]
  end.
  induction items as [|v items IH]; auto.
  cbn [forallb] in H. apply andb_prop in H as [Hv H].
  cbn [map]. rewrite IH by assumption.
  destruct v as [| | | | |lv [| | | |s| | |]| |]; try discriminate Hv.
  now rewrite serialize_entry.
Qed.

Lemma lex_entry (s : string) (rest : list ascii) :
  well_formed (list_ascii_of_string s) = true ->
  lex 0 (entry_chars s ++ rest) = option_map (app (entry_tokens s)) (lex 0 rest).
Proof.
  intros Hw. unfold entry_chars. cbn [app].
  rewrite <- app_assoc. cbn [app]. rewrite <- app_assoc. cbn [app].
  rewrite (lex_punctuation "{" TLBrace) by reflexivity.
  rewrite lex_quoted by reflexivity.
  rewrite (lex_punctuation ":" TColon) by reflexivity.
  rewrite lex_quoted by assumption.
  rewrite (lex_punctuation "}" TRBrace) by reflexivity.
  now destruct (lex 0 rest).
Qed.

Lemma lex_entries (texts : list string) (rest : list ascii) :
  forallb (fun s => well_formed (list_ascii_of_string s)) texts = true ->
  lex 0 (join (map entry_chars texts) ++ rest)
  = option_map (app (entries_tokens texts)) (lex 0 rest).
Proof.
  induction texts as [|s texts IH]; intros H.
  - cbn. now destruct (lex 0 rest).
  - cbn [forallb] in H. apply andb_prop in H as [Hs H].
    destruct texts as [|s' texts].
    + cbn [map join entries_tokens]. now apply lex_entry.
    + change (join (map entry_chars (s :: s' :: texts)))
        with (entry_chars s ++ "," :: join (map entry_chars (s' :: texts))).
      rewrite <- app_assoc. cbn [app]. rewrite lex_entry by assumption.
      rewrite (lex_punctuation "," TComma) by reflexivity.
      rewrite IH by assumption.
      change (entries_tokens (s :: s' :: texts))
        with (entry_tokens s ++ TComma :: entries_tokens (s' :: texts)).
      destruct (lex 0 rest); cbn [option_map]; auto.
Qed.

Lemma parse_entry (fuel : nat) (s : string) (more : list token) :
  3 <= fuel ->
  parse_value fuel (entry_tokens s ++ more) = Parsed (entry_json s, more).
Proof.
  intros H. destruct fuel as [|[|[|fuel]]]; try lia. reflexivity.
Qed.

Lemma parse_entries (texts : list string) :
  forall (fuel : nat) (rest : list token),
    texts <> [] -> List.length texts + 3 <= fuel ->
    parse_elements fuel (entries_tokens texts ++ TRBracket :: rest)
    = Parsed (map entry_json texts, rest).
Proof.
  induction texts as [|s texts IH]; intros fuel rest Hne Hf; [contradiction|].
  destruct fuel as [|fuel]; [simpl in Hf; lia|].
  cbn [parse_elements]. destruct texts as [|s' texts].
  - cbn [entries_tokens]. rewrite parse_entry by (simpl in Hf; lia). reflexivity.
  - change (entries_tokens (s :: s' :: texts))
      with (entry_tokens s ++ TComma :: entries_tokens (s' :: texts)).
    rewrite <- app_assoc. rewrite parse_entry by (simpl in Hf; lia).
    cbn [app]. rewrite IH; [reflexivity|discriminate|simpl in *; lia].
Qed.

Lemma parse_snapshot_tokens (texts : list string) :
  parse_tokens (TLBracket :: entries_tokens texts ++ [TRBracket])
  = Parsed (JArr (map entry_json texts)).
Proof.
  unfold parse_tokens.
  destruct texts as [|s texts]; [reflexivity|].
  set (ts := TLBracket :: entries_tokens (s :: texts) ++ [TRBracket]).
  assert (Hlen : List.length (s :: texts) + 3 <= 2 * List.length ts).
  { unfold ts. clear. cbn [List.length]. rewrite length_app. cbn [List.length].
    assert (H : List.length (s :: texts) <= List.length (entries_tokens (s :: texts))).
    { generalize (s :: texts). clear. intros l.
      induction l as [|a l IH]; auto.
      destruct l as [|b l]; [simpl; lia|].
      change (entries_tokens (a :: b :: l))
        with (entry_tokens a ++ TComma :: entries_tokens (b :: l)).
      rewrite length_app. cbn [List.length] in *. lia. }
    cbn [List.length] in H. lia. }
  unfold ts at 2.
  assert (Hhead : exists more, entries_tokens (s :: texts) ++ [TRBracket]
                               = TLBrace :: more).
  { destruct texts; eexists; reflexivity. }
  destruct Hhead as [more Hm].
  cbn [parse_value]. rewrite Hm, <- Hm.
  rewrite parse_entries; [reflexivity|discriminate|exact Hlen].
Qed.

(** The snapshot of string entries is a JSON text, and it is read back as
    the array of their texts. *)
Lemma parse_snapshot (items : list value) :
  forallb string_entry items = true ->
  parse_text (snapshot items)
  = Parsed (JArr (map (fun v => entry_json (text_string v)) items)).
Proof.
  intros H. unfold snapshot, stringify.
  rewrite serialize_entries by assumption. cbn [option_map].
  unfold parse_text. rewrite list_ascii_of_string_of_list_ascii.
  rewrite (lex_punctuation "[" TLBracket) by reflexivity.
  rewrite <- (map_map text_string entry_chars).
  rewrite lex_entries.
  - rewrite (lex_punctuation "]" TRBracket) by reflexivity. cbn [lex option_map].
    rewrite parse_snapshot_tokens. now rewrite map_map.
  - rewrite forallb_forall in *. intros s Hs.
    apply in_map_iff in Hs as (v & <- & Hv). specialize (H v Hv).
    destruct v as [| | | | |lv [| | | |s| | |]| |]; try discriminate H. exact H.
Qed.

End SnapshotRoundTrip.

(** ** Saving and loading *)

Lemma getItem_setItem (key value : string) (store : storage) :
  getItem key (setItem key value store) = Some value.
Proof.
  induction store as [|[k v] store IH]; simpl.
  - now rewrite String.eqb_refl.
  - destruct (String.eqb k key) eqn:E; simpl.
    + now rewrite String.eqb_refl.
    + now rewrite E.
Qed.

Lemma getItem_setItem_other (key key' value : string) (store : storage) :
  key' <> key ->
  getItem key' (setItem key value store) = getItem key' store.
Proof.
  intros Hne. induction store as [|[k v] store IH]; simpl.
  - apply String.eqb_neq in Hne. rewrite String.eqb_sym in Hne. now rewrite Hne.
  - destruct (String.eqb k key) eqn:E; simpl.
    + apply String.eqb_eq in E. subst k.
      apply String.eqb_neq in Hne. rewrite String.eqb_sym in Hne. now rewrite Hne.
    + now rewrite IH.
Qed.

Lemma snapshot_not_empty (items : list value) : String.eqb (snapshot items) "" = false.
Proof.
  unfold snapshot, JSON_stringify.stringify. cbn [JSON_stringify.serialize option_map].
  reflexivity.
Qed.

(** The array [JSON.parse] builds from the snapshot of string entries: plain
    objects whose [text] properties are the texts. *)
Lemma reify_entries (texts : list string) (n : loc) :
  exists elems n',
    JSON.reify (JSON.JArr (map entry_json texts)) n = (VArray n elems, n') /\
    forallb (fun r => negb (nullish r)) elems = true /\
    map (fun r => property r "text") elems = map VStr texts.
Proof.
  cbn [JSON.reify].
  match goal with
  | |- context [let (vs, n') := ?go (map entry_json texts) (S n) in _] =>
      assert (H : forall k, exists elems k',
                 go (map entry_json texts) k = (elems, k') /\
                 forallb (fun r => negb (nullish r)) elems = true /\
                 map (fun r => property r "text") elems = map VStr texts)
  end.
  { induction texts as [|s texts IH]; intros k.
    - now exists [], k.
    - cbn [map]. destruct (IH (S k)) as (elems & k' & E & Hn & Ht).
      exists (VRecord k [("text", VStr s)] :: elems), k'.
      cbn [JSON.reify entry_json]. rewrite E. cbn. now rewrite Hn, Ht. }
  destruct (H (S n)) as (elems & k' & E & Hn & Ht).
  exists elems, k'. now rewrite E.
Qed.

Lemma rebuilt_texts (n : loc) (elems : list value) :
  map text_of (rebuilt n elems) = map (fun r => property r "text") elems.
Proof. revert n. induction elems; intros n; simpl; auto. now f_equal. Qed.

Lemma string_entry_texts (items : list value) :
  forallb string_entry items = true ->
  map text_of items = map VStr (map text_string items).
Proof.
  induction items as [|v items IH]; auto.
  cbn [forallb map]. intros H. apply andb_prop in H as [Hv H].
  rewrite IH by assumption.
  now destruct v as [| | | | |lv [| | | |s| | |]| |].
Qed.

Lemma load_snapshot (w : World) (items : list value) :
  forallb string_entry items = true ->
  getItem "todoList" (localStorage w) = Some (snapshot items) ->
  exists elems n',
    forallb (fun r => negb (nullish r)) elems = true /\
    map (fun r => property r "text") elems = map text_of items /\
    LocalStorage.load w
    = TodoList.replaceList (VArray (next_loc w) elems) (set_next_loc n' w).
Proof.
  intros Hs Hg. rewrite load_run, Hg, snapshot_not_empty.
  unfold bind at 1, JSON.parse. rewrite parse_snapshot by assumption.
  destruct (reify_entries (map text_string items) (next_loc w))
    as (elems & n' & E & Hn & Ht).
  exists elems, n'. split; [exact Hn|]. split.
  - rewrite Ht. symmetry. now apply string_entry_texts.
  - rewrite map_map in E. unfold bind at 1, gets. rewrite E. reflexivity.
Qed.

(** X14.  What [save] writes, [load] reads back: when the blob store is as
    [save] left it for a collection of entries with well-formed string
    texts, [load] replaces the collection by as many new entries with the
    same texts in the same order, and enters [notify] once. *)
Theorem load_reads_back_what_save_wrote
  (w : World) (items : list value) (store : storage) :
  forallb string_entry items = true ->
  localStorage w = fst (cb_body save items store) ->
  let w1 := snd (LocalStorage.load w) in
  map text_of (data w1) = map text_of items /\
  List.length (data w1) = List.length items /\
  notifications w1 = S (notifications w).
Proof.
  intros Hs Hst. cbv zeta.
  assert (Hg : getItem "todoList" (localStorage w) = Some (snapshot items)).
  { rewrite Hst. cbn [save cb_body fst]. apply getItem_setItem. }
  destruct (load_snapshot w items Hs Hg) as (elems & n' & Hn & Ht & ->).
  destruct (replaceList_one_entry_per_element_aux (next_loc w) elems
              (set_next_loc n' w) Hn) as (D & N).
  rewrite D, N. cbn [notifications set_next_loc].
  assert (Hm : map text_of (rebuilt (next_loc (set_next_loc n' w)) elems)
               = map text_of items) by (now rewrite rebuilt_texts).
  repeat split; auto.
  rewrite <- (length_map text_of), Hm. apply length_map.
Qed.

Lemma load_reads_back_what_save_wrote_witness :
  (forallb string_entry (data two_entries) = true /\
   localStorage stored_eggs_and_milk
   = fst (cb_body save (data two_entries) [])) /\
  map text_of (data (snd (LocalStorage.load stored_eggs_and_milk)))
  = [VStr "Buy eggs"; VStr "Buy milk"].
Proof.
  split; [split; reflexivity|].
  exact (proj1 (load_reads_back_what_save_wrote
                  stored_eggs_and_milk (data two_entries) [] eq_refl eq_refl)).
Defined.

(** A pass over callbacks that do not write to the blob store leaves it as
    it is, whether they complete or raise. *)
Lemma forEach_invoke_keeps_store (obs : list callback) (w w' : World) (r : result unit) :
  Forall keeps_store obs ->
  forEach invoke obs w = (r, w') ->
  localStorage w' = localStorage w.
Proof.
  intros Hk. revert w. induction Hk as [|c obs Hc Hk IH]; intros w.
  - simpl. unfold ret. intros H. now injection H as _ <-.
  - cbn [forEach]. unfold bind at 1. rewrite invoke_run.
    destruct (snd (cb_body c (data w) (localStorage w))).
    + intros H. apply IH in H. rewrite H. cbn. apply Hc.
    + intros H. injection H as _ <-. cbn. apply Hc.
Qed.

(** With [save] registered first and no other observer writing to the blob
    store, a notification pass leaves the snapshot of the collection under
    the key and every other key as it was. *)
Lemma notify_saves (w : World) (rest : list callback) :
  observers w = save :: rest -> Forall keeps_store rest ->
  getItem "todoList" (localStorage (snd (notify w))) = Some (snapshot (data w)) /\
  (forall key, key <> "todoList" ->
     getItem key (localStorage (snd (notify w))) = getItem key (localStorage w)).
Proof.
  intros Ho Hk.
  assert (E : localStorage (snd (notify w))
              = setItem "todoList" (snapshot (data w)) (localStorage w)).
  { unfold notify, bind at 1, modify. unfold bind at 1, gets.
    cbn [observers count_notification]. rewrite Ho. cbn [forEach].
    unfold bind at 1. rewrite invoke_run. cbn [save cb_body snd fst].
    match goal with
    | |- context [forEach invoke rest ?w1] =>
        destruct (forEach invoke rest w1) as [r w'] eqn:E;
        apply (forEach_invoke_keeps_store rest w1 w' r Hk) in E
    end.
    cbn [snd]. rewrite E. reflexivity. }
  rewrite E. split; [apply getItem_setItem|].
  intros key Hne. now apply getItem_setItem_other.
Qed.

Lemma snd_notify_then_ret {A} (a : A) (w : World) :
  snd ((notify ;; ret a) w) = snd (notify w).
Proof. unfold bind. now destruct (notify w) as [[[]|e] w']. Qed.

(** X15.  With [save] registered first and no other observer writing to
    the blob store, every mutation that notifies leaves under the key
    [todoList] the serialisation of the whole collection as it is after the
    mutation: after an [add] that inserts, a [deleteByText] that removes,
    and a [replaceList] of an array without [null] or [undefined]. *)
Theorem mutations_store_the_full_snapshot (w : World) (rest : list callback) :
  observers w = save :: rest -> Forall keeps_store rest ->
  (forall e : value,
     forallb is_item (data w) = true -> is_item e = true ->
     coherent_with e (data w) = true ->
     holds_text (text_of e) (data w) = false ->
     getItem "todoList" (localStorage (snd (TodoList.add e w)))
     = Some (snapshot (data w ++ [e])))
  /\
  (forall (t x : value) (pre post : list value),
     forallb is_item (data w) = true -> distinct_objects (data w) = true ->
     data w = pre ++ x :: post -> holds_text t pre = false ->
     strict_eq (text_of x) t = true ->
     getItem "todoList" (localStorage (snd (TodoList.deleteByText t w)))
     = Some (snapshot (pre ++ post)))
  /\
  (forall (l : loc) (elems : list value),
     forallb (fun r => negb (nullish r)) elems = true ->
     getItem "todoList"
       (localStorage (snd (TodoList.replaceList (VArray l elems) w)))
     = Some (snapshot (rebuilt (next_loc w) elems))).
Proof.
  intros Ho Hk. split; [|split].
  - intros e Hd He Hc Hn. rewrite add_absent, snd_notify_then_ret by assumption.
    now apply (notify_saves (set_data (data w ++ [e]) w) rest).
  - intros t x pre post Hd Hs E Hpre Hx.
    rewrite (deleteByText_found w t x pre post), snd_notify_then_ret by assumption.
    now apply (notify_saves (set_data (pre ++ post) w) rest).
  - intros l elems Hr. rewrite replaceList_array by assumption.
    now apply (notify_saves
                 (set_next_loc (next_loc w + List.length elems)
                    (set_data (rebuilt (next_loc w) elems) w)) rest).
Qed.

Lemma mutations_store_the_full_snapshot_witness :
  (observers saving = save :: [render] /\ Forall keeps_store [render]) /\
  getItem "todoList" (localStorage (snd (TodoList.add milk saving)))
  = Some eggs_and_milk_blob.
Proof.
  assert (Hk : Forall keeps_store [render]) by (repeat constructor).
  split; [split; [reflexivity|exact Hk]|].
  exact (proj1 (mutations_store_the_full_snapshot saving [render] eq_refl Hk)
           milk eq_refl eq_refl eq_refl eq_refl).
Defined.

(** ** Starting the application *)

Lemma snapshot_of_texts (d1 d2 : list value) :
  forallb string_entry d1 = true -> forallb string_entry d2 = true ->
  map text_of d1 = map text_of d2 ->
  snapshot d1 = snapshot d2.
Proof.
  intros H1 H2 E. unfold snapshot, JSON_stringify.stringify.
  rewrite !serialize_entries by assumption.
  rewrite !string_entry_texts in E by assumption.
  assert (E' : map text_string d1 = map text_string d2).
  { revert E. generalize (map text_string d1) (map text_string d2).
    induction l as [|a l IH]; intros [|b l']; simpl; try discriminate; auto.
    intros H. injection H as -> H. f_equal. auto. }
  rewrite <- (map_map text_string entry_chars d1).
  rewrite <- (map_map text_string entry_chars d2).
  now rewrite E'.
Qed.

Lemma rebuilt_string_entries (n : loc) (elems : list value) (items : list value) :
  forallb string_entry items = true ->
  map (fun r => property r "text") elems = map text_of items ->
  forallb string_entry (rebuilt n elems) = true.
Proof.
  revert n items. induction elems as [|r elems IH]; intros n items Hs E; auto.
  destruct items as [|v items]; [discriminate|].
  cbn [map] in E. injection E as Er E.
  cbn [forallb] in Hs. apply andb_prop in Hs as [Hv Hs].
  cbn [rebuilt forallb]. rewrite (IH (S n) items) by assumption.
  rewrite andb_true_r. cbn [string_entry]. rewrite Er.
  now destruct v as [| | | | |lv [| | | |s| | |]| |].
Qed.

(** [renderTodoList] completes on a collection of entries, and more
    generally exactly when no element is [null] or [undefined]. *)
Lemma render_items_completes (items : list value) :
  render_items items
  = if forallb (fun item => negb (nullish item)) items then Ok tt
    else Throw TypeError.
Proof.
  induction items as [|item items IH]; [reflexivity|].
  cbn [render_items forallb].
  destruct item; cbn [get rbind nullish negb andb]; try exact IH; reflexivity.
Qed.

Lemma renderTodoList_on_entries (items : list value) (s : storage) :
  forallb is_item items = true ->
  cb_body renderTodoList items s = (s, true).
Proof.
  intros H. cbn [renderTodoList cb_body]. rewrite render_items_completes.
  replace (forallb (fun item => negb (nullish item)) items) with true; auto.
  symmetry. rewrite forallb_forall in *. intros x Hx.
  specialize (H x Hx). now destruct x.
Qed.

(** X16.  Starting the application ([storage.js] registers [save], the
    [DOMContentLoaded] handler registers [renderTodoList] and calls
    [load]) leaves [save] and [renderTodoList] registered, in this order.
    On a blob store without the key it leaves the collection empty and
    notifies nobody.  On a blob store holding the snapshot of entries with
    well-formed string texts it rebuilds entries with these texts, then
    invokes [save] and [renderTodoList] once each, in this order, both
    complete, and the stored snapshot is the same text as before. *)
Theorem startup_restores_the_saved_entries (store : storage) :
  let started := (storage_module ;; onDOMContentLoaded) (initial store) in
  map cb_id (observers (snd started)) = [save_id; renderTodoList_id] /\
  (getItem "todoList" store = None ->
     fst started = Ok tt /\ data (snd started) = [] /\
     calls (snd started) = [] /\ localStorage (snd started) = store)
  /\
  (forall items : list value,
     forallb string_entry items = true ->
     getItem "todoList" store = Some (snapshot items) ->
     fst started = Ok tt /\
     map text_of (data (snd started)) = map text_of items /\
     forallb is_item (data (snd started)) = true /\
     notifications (snd started) = 1 /\
     calls (snd started) = [save_id; renderTodoList_id] /\
     getItem "todoList" (localStorage (snd started)) = Some (snapshot items)).
Proof.
  cbv zeta.
  assert (Hreg : (storage_module ;; onDOMContentLoaded) (initial store)
                 = LocalStorage.load
                     (set_observers [save; renderTodoList] (initial store)))
    by reflexivity.
  set (w0 := set_observers [save; renderTodoList] (initial store)) in *.
  rewrite Hreg.
  split; [|split].
  - destruct (load_pass w0) as [O _]. now rewrite O.
  - intros Hg. rewrite load_run. subst w0. cbn [localStorage set_observers initial].
    rewrite Hg. now cbn.
  - intros items Hs Hg.
    destruct (load_snapshot w0 items Hs Hg) as (elems & n' & Hn & Ht & ->).
    rewrite replaceList_array by assumption.
    set (w1 := set_next_loc _ _).
    assert (Hd1 : data w1 = rebuilt n' elems) by reflexivity.
    assert (Hitems : forallb is_item (data w1) = true)
      by (rewrite Hd1; apply rebuilt_items).
    assert (Hobs : observers w1 = [save; renderTodoList]) by reflexivity.
    assert (Hsto : localStorage w1 = store) by reflexivity.
    assert (Hret : observers_return (observers w1) (data w1) (localStorage w1) = true).
    { rewrite Hobs. cbn [observers_return]. cbn [save cb_body snd fst].
      now rewrite renderTodoList_on_entries. }
    rewrite notify_all by exact Hret.
    assert (Hst : storage_after (observers w1) (data w1) (localStorage w1)
                  = setItem "todoList" (snapshot (data w1)) store).
    { rewrite Hobs, Hsto. cbn [storage_after fold_left]. cbn [save cb_body fst].
      now rewrite renderTodoList_on_entries. }
    split; [reflexivity|]. split; [|split; [|split; [|split]]].
    + cbn [snd notified_all notified data]. now rewrite Hd1, rebuilt_texts.
    + exact Hitems.
    + reflexivity.
    + cbn [snd notified_all notified calls]. now rewrite Hobs.
    + cbn [snd notified_all notified localStorage]. rewrite Hst, getItem_setItem.
      f_equal. rewrite Hd1. apply snapshot_of_texts; auto.
      * now apply (rebuilt_string_entries n' elems items).
      * now rewrite rebuilt_texts.
Qed.

Lemma startup_restores_the_saved_entries_witness :
  (forallb string_entry [eggs; milk] = true /\
   getItem "todoList" [("todoList", eggs_and_milk_blob)]
   = Some (snapshot [eggs; milk])) /\
  fst ((storage_module ;; onDOMContentLoaded)
         (initial [("todoList", eggs_and_milk_blob)])) = Ok tt /\
  map text_of
    (data (snd ((storage_module ;; onDOMContentLoaded)
                  (initial [("todoList", eggs_and_milk_blob)]))))
  = [VStr "Buy eggs"; VStr "Buy milk"] /\
  calls (snd ((storage_module ;; onDOMContentLoaded)
                (initial [("todoList", eggs_and_milk_blob)])))
  = [save_id; renderTodoList_id] /\
  getItem "todoList"
    (localStorage (snd ((storage_module ;; onDOMContentLoaded)
                          (initial [("todoList", eggs_and_milk_blob)]))))
  = Some eggs_and_milk_blob.
Proof.
  assert (Hs : forallb string_entry [eggs; milk] = true) by reflexivity.
  assert (Hg : getItem "todoList" [("todoList", eggs_and_milk_blob)]
               = Some (snapshot [eggs; milk])) by reflexivity.
  split; [split; assumption|].
  pose proof (proj2 (proj2 (startup_restores_the_saved_entries
                              [("todoList", eggs_and_milk_blob)]))
                [eggs; milk] Hs Hg) as H.
  cbv zeta in H.
  split; [exact (proj1 H)|]. split; [exact (proj1 (proj2 H))|].
  split; [exact (proj1 (proj2 (proj2 (proj2 (proj2 H)))))|].
  change (Some eggs_and_milk_blob) with (Some (snapshot [eggs; milk])) in |- *.
  exact (proj2 (proj2 (proj2 (proj2 (proj2 H))))).
Defined.

(** ** The click handlers *)

Lemma execute_add_command (l : loc) (p : value) (w : World) :
  CE.execute (VRecord l [("type", VStr COMMANDS.ADD_TODO); ("payload", p)]) w
  = (b <- TodoList.add p ;; ret (VBool b)) w.
Proof. reflexivity. Qed.

Lemma execute_remove_command (l : loc) (p : value) (w : World) :
  CE.execute
    (VRecord l [("type", VStr COMMANDS.REMOVE_TODO_BY_TEXT); ("payload", p)]) w
  = (b <- TodoList.deleteByText p ;; ret (VBool b)) w.
Proof. reflexivity. Qed.

(** A click with text in the input builds the entry and the command, then
    adds the entry. *)
Lemma onAddClick_run (value : string) (w : World) :
  trim value <> "" ->
  onAddClick value w
  = (b <- TodoList.add (VItem (next_loc w) (VStr (trim value))) ;; ret "")
      (set_next_loc (S (S (next_loc w))) w).
Proof.
  intros Hne. unfold onAddClick. cbn [truthy].
  apply String.eqb_neq in Hne. rewrite Hne. cbn [negb].
  unfold bind at 1, TodoItem.new. unfold bind at 1, gets.
  unfold bind at 1, modify. unfold ret at 1.
  unfold bind at 1, Command.new. unfold bind at 1, gets.
  unfold bind at 1, modify. unfold ret at 1.
  unfold bind at 1. rewrite execute_add_command.
  cbn [next_loc set_next_loc].
  unfold bind.
  replace (set_next_loc (S (S (next_loc w))) (set_next_loc (S (next_loc w)) w))
    with (set_next_loc (S (S (next_loc w))) w) by reflexivity.
  now destruct (TodoList.add _ _) as [[b|e] w'].
Qed.

Lemma below_coherent (n : loc) (t : value) (d : list value) :
  below n d = true -> coherent_with (VItem n t) d = true.
Proof.
  unfold below, coherent_with. rewrite !forallb_forall. intros H x Hx.
  specialize (H x Hx).
  destruct x; simpl in *; auto.
  apply Nat.ltb_lt in H.
  assert (E : Nat.eqb n l = false) by (apply Nat.eqb_neq; lia).
  now rewrite E.
Qed.

(** X17.  A click on the add button with an input whose trimmed text [t]
    is not blank, on a store of entries.  When an entry with the text [t]
    is present the click adds nothing, notifies nobody and clears the
    input.  Otherwise it appends one entry with the text [t] and enters
    [notify] once; the input is cleared when every observer completes, and
    when an observer raises the exception leaves the handler before the
    input is cleared.  In every case a second click with an input that
    trims to [t] adds nothing, notifies nobody and clears the input. *)
Theorem add_click_twice_adds_once (w : World) (value1 value2 : string) :
  trim value1 <> "" -> trim value2 = trim value1 ->
  forallb is_item (data w) = true ->
  below (next_loc w) (data w) = true ->
  let t := VStr (trim value1) in
  let d1 := data w ++ [VItem (next_loc w) t] in
  let w1 := snd (onAddClick value1 w) in
  let w2 := snd (onAddClick value2 w1) in
  (holds_text t (data w) = true ->
     fst (onAddClick value1 w) = Ok "" /\
     data w1 = data w /\ notifications w1 = notifications w) /\
  (holds_text t (data w) = false ->
     data w1 = d1 /\
     notifications w1 = S (notifications w) /\
     (observers_return (observers w) d1 (localStorage w) = true ->
        fst (onAddClick value1 w) = Ok "") /\
     (observers_return (observers w) d1 (localStorage w) = false ->
        exists c, In c (observers w) /\
                  fst (onAddClick value1 w) = Throw (Raised (cb_id c)))) /\
  fst (onAddClick value2 w1) = Ok "" /\
  data w2 = data w1 /\ notifications w2 = notifications w1.
Proof.
  intros Hne Heq Hd Hb. cbv zeta.
  set (e := VItem (next_loc w) (VStr (trim value1))).
  set (w0 := set_next_loc (S (S (next_loc w))) w).
  assert (Hrun : onAddClick value1 w = (b <- TodoList.add e ;; ret "") w0)
    by now apply onAddClick_run.
  (* the second click finds the text, whatever the first one did *)
  assert (Hsecond : forall w1 : World,
            forallb is_item (data w1) = true ->
            holds_text (VStr (trim value1)) (data w1) = true ->
            onAddClick value2 w1 = (Ok "", set_next_loc (S (S (next_loc w1))) w1)).
  { intros w1 Hi Hh. rewrite onAddClick_run by congruence. rewrite Heq.
    unfold bind. now rewrite add_present. }
  destruct (holds_text (VStr (trim value1)) (data w)) eqn:Hh.
  - assert (H1 : onAddClick value1 w = (Ok "", w0)).
    { rewrite Hrun. unfold bind. now rewrite add_present. }
    rewrite H1. cbn [fst snd].
    rewrite (Hsecond w0) by assumption.
    split; [auto|]. split; [discriminate|]. now repeat split.
  - assert (Hadd : TodoList.add e w0
                   = (notify ;; ret true) (set_data (data w ++ [e]) w0)).
    { apply (add_absent w0 e); auto. now apply below_coherent. }
    assert (H1 : onAddClick value1 w
                 = (b <- (notify ;; ret true) ;; ret "")
                     (set_data (data w ++ [e]) w0)).
    { rewrite Hrun. unfold bind at 1. rewrite Hadd. reflexivity. }
    destruct (notify_then_ret true (set_data (data w ++ [e]) w0)) as (D & _ & N).
    cbn [data notifications set_data set_next_loc] in D, N.
    assert (Hw1 : snd (onAddClick value1 w)
                  = snd ((notify ;; ret true) (set_data (data w ++ [e]) w0))).
    { rewrite H1. unfold bind at 1.
      now destruct ((notify ;; ret true) _) as [[b|x] w']. }
    rewrite Hw1.
    set (w1 := snd ((notify ;; ret true) _)) in *.
    rewrite (Hsecond w1);
      [|rewrite D; now apply forallb_is_item_snoc
       |rewrite D; apply (holds_text_last e (data w))].
    cbn [fst snd data notifications set_next_loc].
    split; [discriminate|]. split; [|now repeat split].
    intros _. repeat split; auto.
    + intros Hr. rewrite H1. unfold bind at 1.
      rewrite notify_then_ret_all by exact Hr. reflexivity.
    + intros Hr.
      destruct (notify_then_ret_raises true (set_data (data w ++ [e]) w0) Hr)
        as (pre & c & post & E & _ & _ & Hn).
      exists c. split.
      * change (observers w) with (observers (set_data (data w ++ [e]) w0)).
        rewrite E. apply in_or_app. right. now left.
      * rewrite H1. unfold bind at 1. now rewrite Hn.
Qed.

Lemma add_click_twice_adds_once_witness :
  (trim " Buy milk " <> "" /\ trim "Buy milk" = trim " Buy milk " /\
   forallb is_item (data one_entry) = true /\
   below (next_loc one_entry) (data one_entry) = true /\
   holds_text (VStr (trim " Buy milk ")) (data one_entry) = false /\
   observers_return (observers one_entry)
     (data one_entry ++ [VItem (next_loc one_entry) (VStr (trim " Buy milk "))])
     (localStorage one_entry) = true) /\
  fst (onAddClick " Buy milk " one_entry) = Ok "" /\
  data (snd (onAddClick " Buy milk " one_entry))
  = [eggs; VItem 2 (VStr "Buy milk")] /\
  data (snd (onAddClick "Buy milk" (snd (onAddClick " Buy milk " one_entry))))
  = data (snd (onAddClick " Buy milk " one_entry)).
Proof.
  assert (Hne : trim " Buy milk " <> "") by discriminate.
  split; [repeat split; auto|].
  pose proof (add_click_twice_adds_once one_entry " Buy milk " "Buy milk"
                Hne eq_refl eq_refl eq_refl) as H.
  cbv zeta in H. destruct H as (_ & Hnew & _ & Hsame & _).
  specialize (Hnew eq_refl). destruct Hnew as (Hdata & _ & Hok & _).
  split; [exact (Hok eq_refl)|]. split; [exact Hdata|exact Hsame].
Defined.

Lemma code_points_blank (cur : option string) (cs : list ascii) :
  forallb is_blank cs = true ->
  code_points_aux cur cs
  = match cur with Some s => [s] | None => [] end
      ++ map (fun c => String c "") cs.
Proof.
  revert cur. induction cs as [|c cs IH]; intros cur H.
  - simpl. now rewrite app_nil_r.
  - cbn [forallb] in H. apply andb_prop in H as [Hc H].
    cbn [code_points_aux].
    assert (Hn : is_continuation c = false).
    { unfold is_blank in Hc. cbn [existsb] in Hc.
      repeat (apply orb_prop in Hc as [Hc|Hc];
              [apply N.eqb_eq in Hc; unfold is_continuation; now rewrite Hc|]).
      discriminate. }
    rewrite Hn. destruct cur; rewrite IH by assumption; reflexivity.
Qed.

Lemma drop_white_space_blank (cs : list ascii) :
  forallb is_blank cs = true ->
  drop_white_space (map (fun c => String c "") cs) = [].
Proof.
  induction cs as [|c cs IH]; auto.
  cbn [forallb]. intros H. apply andb_prop in H as [Hc H].
  cbn [map drop_white_space].
  assert (Hw : is_white_space (String c "") = true).
  { unfold is_blank in Hc. cbn [existsb] in Hc.
    repeat (apply orb_prop in Hc as [Hc|Hc];
            [apply N.eqb_eq in Hc;
             rewrite <- (ascii_N_embedding c), Hc; reflexivity|]).
    discriminate. }
  rewrite Hw. auto.
Qed.

(** X18.  Clicking the add button while the input holds nothing but spaces,
    tabs and line breaks does nothing: no entry, no command, no
    notification, and the input keeps its content. *)
Theorem add_click_on_blank_input (w : World) (value : string) :
  forallb is_blank (list_ascii_of_string value) = true ->
  onAddClick value w = (Ok value, w).
Proof.
  intros H. unfold onAddClick.
  assert (E : trim value = "").
  { unfold trim, code_points.
    rewrite code_points_blank by assumption. cbn [app].
    now rewrite drop_white_space_blank. }
  now rewrite E.
Qed.

Lemma add_click_on_blank_input_witness :
  forallb is_blank (list_ascii_of_string "   ") = true /\
  onAddClick "   " one_entry = (Ok "   ", one_entry).
Proof.
  split; [reflexivity|].
  exact (add_click_on_blank_input one_entry "   " eq_refl).
Defined.

Lemma snd_bind_ret {A B} (m : M A) (b : B) (w : World) :
  snd ((x <- m ;; ret b) w) = snd (m w).
Proof. unfold bind. now destruct (m w) as [[a|e] w']. Qed.

(** X19.  A click in the list on anything but a delete button does nothing.
    A click on a delete button goes through a new command and the
    dispatcher to [deleteByText] of the text the button carries: when no
    entry has this text, nothing changes but the identity counter and
    nobody is notified; otherwise the first entry with this text is taken
    out and [notify] is entered once. *)
Theorem list_click_deletes_by_text (w : World) (dataset_text : value) :
  forallb is_item (data w) = true ->
  distinct_objects (data w) = true ->
  onListClick false dataset_text w = (Ok tt, w) /\
  (holds_text dataset_text (data w) = false ->
   onListClick true dataset_text w = (Ok tt, set_next_loc (S (next_loc w)) w)) /\
  (forall (x : value) (pre post : list value),
     data w = pre ++ x :: post -> holds_text dataset_text pre = false ->
     strict_eq (text_of x) dataset_text = true ->
     data (snd (onListClick true dataset_text w)) = pre ++ post /\
     notifications (snd (onListClick true dataset_text w)) = S (notifications w)).
Proof.
  intros Hd Hs.
  assert (E : onListClick true dataset_text w
              = (b <- TodoList.deleteByText dataset_text ;; ret tt)
                  (set_next_loc (S (next_loc w)) w)).
  { unfold onListClick. unfold bind at 1, Command.new. unfold bind at 1, gets.
    unfold bind at 1, modify. unfold ret at 1.
    unfold bind at 1. rewrite execute_remove_command. unfold bind.
    now destruct (TodoList.deleteByText _ _) as [[b|e] w']. }
  split; [reflexivity|]. split.
  - intros Hn. rewrite E. unfold bind.
    now rewrite deleteByText_absent.
  - intros x pre post Ed Hpre Hx. rewrite E, snd_bind_ret.
    rewrite (deleteByText_found (set_next_loc (S (next_loc w)) w)
               dataset_text x pre post) by assumption.
    match goal with
    | |- context [(notify ;; ret true) ?w0] =>
        destruct (notify_then_ret true w0) as (D & _ & N)
    end.
    now rewrite D, N.
Qed.

Lemma list_click_deletes_by_text_witness :
  (forallb is_item (data two_entries) = true /\
   distinct_objects (data two_entries) = true /\
   holds_text (VStr "missing") (data two_entries) = false) /\
  onListClick true (VStr "missing") two_entries
  = (Ok tt, mkWorld [eggs; milk] [render] [] 3 0 []) /\
  data (snd (onListClick true (VStr "Buy eggs") two_entries)) = [milk].
Proof.
  split; [repeat split|]. split.
  - exact (proj1 (proj2 (list_click_deletes_by_text
                           two_entries (VStr "missing") eq_refl eq_refl)) eq_refl).
  - exact (proj1 (proj2 (proj2 (list_click_deletes_by_text
                                  two_entries (VStr "Buy eggs") eq_refl eq_refl))
                    eggs [] [milk] eq_refl eq_refl eq_refl)).
Defined.

(** ** Two more facts about the collection *)

(** X20.  [replaceList] of an array without [null] or [undefined] elements
    drops whatever the collection held and builds one new entry per
    element, in order, each from the [text] property of its element alone
    (other properties play no part); [notify] is entered once. *)
Theorem replaceList_builds_one_entry_per_element
  (l : loc) (elems : list value) (w : World) :
  forallb (fun r => negb (nullish r)) elems = true ->
  let w1 := snd (TodoList.replaceList (VArray l elems) w) in
  data w1 = rebuilt (next_loc w) elems /\
  map text_of (data w1) = map (fun r => property r "text") elems /\
  List.length (data w1) = List.length elems /\
  notifications w1 = S (notifications w) /\
  next_loc w1 = next_loc w + List.length elems.
Proof.
  intros Hr. cbv zeta.
  destruct (replaceList_one_entry_per_element_aux l elems w Hr) as (D & N).
  rewrite D, N, rebuilt_texts, rebuilt_length.
  repeat split.
  rewrite replaceList_array by assumption.
  match goal with
  | |- context [notify ?w0] => destruct (notify_frame w0) as (_ & _ & L & _)
  end.
  now rewrite L.
Qed.

Lemma replaceList_builds_one_entry_per_element_witness :
  forallb (fun r => negb (nullish r))
    [VRecord 3 [("text", VStr "a"); ("completed", VBool true)]; VNum 5 0] = true /\
  data (snd (TodoList.replaceList
               (VArray 2 [VRecord 3 [("text", VStr "a"); ("completed", VBool true)];
                          VNum 5 0])
               before_replace))
  = [VItem 6 (VStr "a"); VItem 7 VUndefined].
Proof.
  split; [reflexivity|].
  exact (proj1 (replaceList_builds_one_entry_per_element 2
                  [VRecord 3 [("text", VStr "a"); ("completed", VBool true)];
                   VNum 5 0]
                  before_replace eq_refl)).
Defined.

(** X21.  [add] and [deleteByText] keep the texts of the collection
    pairwise different: on a store of entries with at most one entry per
    text, there is still at most one entry per text after either. *)
Theorem add_and_deleteByText_keep_texts_unique (w : World) (v : value) :
  forallb is_item (data w) = true ->
  unique_texts (data w) = true ->
  (is_item v = true -> coherent_with v (data w) = true ->
   unique_texts (data (snd (TodoList.add v w))) = true) /\
  unique_texts (data (snd (TodoList.deleteByText v w))) = true.
Proof.
  intros Hd Hu. split.
  - intros Hv Hc. now apply add_keeps_unique_texts.
  - now apply deleteByText_keeps_unique_texts.
Qed.

Lemma add_and_deleteByText_keep_texts_unique_witness :
  (forallb is_item (data two_entries) = true /\
   unique_texts (data two_entries) = true /\
   is_item more_eggs = true /\ coherent_with more_eggs (data two_entries) = true) /\
  unique_texts (data (snd (TodoList.add more_eggs two_entries))) = true.
Proof.
  split; [repeat split|].
  exact (proj1 (add_and_deleteByText_keep_texts_unique
                  two_entries more_eggs eq_refl eq_refl) eq_refl eq_refl).
Defined.
